(** * Electoral college: the tally [get_winner] and the loader [to_dict]

    A shallow embedding of [electoral_college.py].

    - A Python [str] is a [string]; a character of the model stands for the
      code point of the same number (the code points below 256).
    - A Python [int] is a [Z].
    - A Python [dict] is the list of its items in insertion order, which is
      the order [items()] yields them in; the keys of a dict are distinct
      ([wf_dict]).
    - A call that may raise returns a [result]: the value, or the exception.
    - The text file [to_dict] opens is given by its decoded text; failures of
      [open] itself (a missing file, undecodable bytes) are outside the model. *)

From Stdlib Require Import String Ascii List ZArith Lia Bool Arith.
From Stdlib Require Import Numbers.DecimalString Numbers.DecimalNat.
From Stdlib Require Import Sorting.Permutation.
Import ListNotations.

Local Open Scope string_scope.
Local Open Scope list_scope.

(** ** Exceptions and results *)

Inductive exception : Type :=
| ValueError (msg : string)
| KeyError (key : string)
| OtherError (cls : string) (msg : string).

Inductive result (A : Type) : Type :=
| Ok (a : A)
| Raise (e : exception).

Arguments Ok {A} a.
Arguments Raise {A} e.

Definition bind {A B : Type} (c : result A) (k : A -> result B) : result B :=
  match c with
  | Ok a => k a
  | Raise e => Raise e
  end.

Notation "x <- c ;; k" := (bind c (fun x => k))
  (at level 61, c at next level, right associativity).

Definition is_ok {A : Type} (r : result A) : bool :=
  match r with
  | Ok _ => true
  | Raise _ => false
  end.

(** ** Python strings *)

Definition tab : ascii := "009"%char.
Definition LF : ascii := "010"%char.
Definition CR : ascii := "013"%char.

(** [str.isspace] on one character: the white space among the code points
    below 256. *)
Definition isspace (c : ascii) : bool :=
  let n := nat_of_ascii c in
  (((9 <=? n) && (n <=? 13)) || ((28 <=? n) && (n <=? 31))
   || (n =? 32) || (n =? 133) || (n =? 160))%nat.

Fixpoint lstrip (s : string) : string :=
  match s with
  | EmptyString => EmptyString
  | String c s' => if isspace c then lstrip s' else s
  end.

Fixpoint rstrip (s : string) : string :=
  match s with
  | EmptyString => EmptyString
  | String c s' =>
      match rstrip s' with
      | EmptyString => if isspace c then EmptyString else String c EmptyString
      | r => String c r
      end
  end.

(** [s.strip()] *)
Definition strip (s : string) : string := rstrip (lstrip s).

(** [s.split(sep)] for a separator of one character: one field more than
    there are separators. *)
Fixpoint split (sep : ascii) (s : string) : list string :=
  match s with
  | EmptyString => [EmptyString]
  | String c s' =>
      if Ascii.eqb c sep then EmptyString :: split sep s'
      else match split sep s' with
           | [] => [String c EmptyString]
           | field :: fields => String c field :: fields
           end
  end.

(** [not s] for a string: true on the empty string only. *)
Definition is_empty (s : string) : bool :=
  match s with
  | EmptyString => true
  | String _ _ => false
  end.

(** [str(n)] of a natural number, as an f-string renders it. *)
Definition str_of_nat (n : nat) : string :=
  NilEmpty.string_of_uint (Nat.to_uint n).

(** [sub in s] *)
Fixpoint contains (sub s : string) : bool :=
  prefix sub s ||
  match s with
  | EmptyString => false
  | String _ s' => contains sub s'
  end.

(** ** Python dicts *)

Definition dict (V : Type) : Type := list (string * V).

Definition items {V : Type} (d : dict V) : list (string * V) := d.

Definition keys {V : Type} (d : dict V) : list string := map fst d.

Definition wf_dict {V : Type} (d : dict V) : Prop := NoDup (keys d).

(** [d.get(k)] *)
Fixpoint get {V : Type} (d : dict V) (k : string) : option V :=
  match d with
  | [] => None
  | (k', v) :: d' => if String.eqb k' k then Some v else get d' k
  end.

(** [d[k]]: raises [KeyError(k)] when the key is missing. *)
Definition getitem {V : Type} (d : dict V) (k : string) : result V :=
  match get d k with
  | Some v => Ok v
  | None => Raise (KeyError k)
  end.

(** [d[k] = v]: a key already present keeps its place, a new key goes last. *)
Fixpoint setitem {V : Type} (d : dict V) (k : string) (v : V) : dict V :=
  match d with
  | [] => [(k, v)]
  | (k', v') :: d' =>
      if String.eqb k' k then (k', v) :: d' else (k', v') :: setitem d' k v
  end.

(** ** [get_winner] *)

Definition invalid_outcome_message : string :=
  "Invalid outcome value. Should be either 'R' or 'D'.".

(** The body of the [for] loop, on the two running totals
    [(total_R_votes, total_D_votes)]. *)
Definition tally_entry (elector_dict : dict Z) (totals : Z * Z)
    (entry : string * string) : result (Z * Z) :=
  let '(total_R_votes, total_D_votes) := totals in
  let '(state, outcome) := entry in
  if String.eqb outcome "R" then
    n <- getitem elector_dict state ;;
    Ok ((total_R_votes + n)%Z, total_D_votes)
  else if String.eqb outcome "D" then
    n <- getitem elector_dict state ;;
    Ok (total_R_votes, (total_D_votes + n)%Z)
  else Raise (ValueError invalid_outcome_message).

Fixpoint tally_loop (elector_dict : dict Z) (entries : list (string * string))
    (totals : Z * Z) : result (Z * Z) :=
  match entries with
  | [] => Ok totals
  | entry :: rest =>
      totals' <- tally_entry elector_dict totals entry ;;
      tally_loop elector_dict rest totals'
  end.

(** The decision rule applied after the loop. *)
Definition decide_winner (totals : Z * Z) : string * Z :=
  let '(total_R_votes, total_D_votes) := totals in
  if (total_R_votes >? total_D_votes)%Z then ("R", total_R_votes)
  else if (total_D_votes >? total_R_votes)%Z then ("D", total_D_votes)
  else ("Tie", total_R_votes).

Definition get_winner (elector_dict : dict Z) (outcome_dict : dict string)
    : result (string * Z) :=
  totals <- tally_loop elector_dict (items outcome_dict) (0%Z, 0%Z) ;;
  Ok (decide_winner totals).

(** *** [get_winner] over a store

    The same function with the two dict objects held in a store that every
    primitive receives and hands on, so that a change to either dict would
    show in the store the call returns. *)

Record store : Type := mkStore {
  elector_obj : dict Z;
  outcome_obj : dict string
}.

Definition St (A : Type) : Type := store -> store * result A.

Definition st_ret {A : Type} (a : A) : St A := fun h => (h, Ok a).

Definition st_raise {A : Type} (e : exception) : St A := fun h => (h, Raise e).

Definition st_bind {A B : Type} (c : St A) (k : A -> St B) : St B :=
  fun h =>
    match c h with
    | (h', Ok a) => k a h'
    | (h', Raise e) => (h', Raise e)
    end.

(** [outcome_dict.items()] *)
Definition st_outcome_items : St (list (string * string)) :=
  fun h => (h, Ok (items (outcome_obj h))).

(** [elector_dict[state]] *)
Definition st_elector_getitem (state : string) : St Z :=
  fun h => (h, getitem (elector_obj h) state).

Definition st_tally_entry (totals : Z * Z) (entry : string * string)
    : St (Z * Z) :=
  let '(total_R_votes, total_D_votes) := totals in
  let '(state, outcome) := entry in
  if String.eqb outcome "R" then
    st_bind (st_elector_getitem state)
      (fun n => st_ret ((total_R_votes + n)%Z, total_D_votes))
  else if String.eqb outcome "D" then
    st_bind (st_elector_getitem state)
      (fun n => st_ret (total_R_votes, (total_D_votes + n)%Z))
  else st_raise (ValueError invalid_outcome_message).

Fixpoint st_tally_loop (entries : list (string * string)) (totals : Z * Z)
    : St (Z * Z) :=
  match entries with
  | [] => st_ret totals
  | entry :: rest =>
      st_bind (st_tally_entry totals entry)
        (fun totals' => st_tally_loop rest totals')
  end.

Definition st_get_winner : St (string * Z) :=
  st_bind st_outcome_items (fun entries =>
  st_bind (st_tally_loop entries (0%Z, 0%Z)) (fun totals =>
  st_ret (decide_winner totals))).

(** *** The totals as the specification words them

    Each party's total is the sum of the elector counts of the regions
    assigned to that party; [get_winner] itself keeps two running totals. *)

(** The elector count of a region, 0 for a region the mapping lacks. *)
Definition elector_count (elector_dict : dict Z) (state : string) : Z :=
  match get elector_dict state with
  | Some n => n
  | None => 0%Z
  end.

(** The regions the outcome mapping assigns to [party]. *)
Definition regions_of (outcome_dict : dict string) (party : string)
    : list string :=
  map fst (filter (fun entry => String.eqb (snd entry) party)
                  (items outcome_dict)).

(** The sum of the elector counts of the regions assigned to [party]. *)
Definition party_total (elector_dict : dict Z) (outcome_dict : dict string)
    (party : string) : Z :=
  fold_right Z.add 0%Z (map (elector_count elector_dict)
                            (regions_of outcome_dict party)).

Definition valid_outcome (outcome : string) : bool :=
  String.eqb outcome "R" || String.eqb outcome "D".

Definition has_key {V : Type} (d : dict V) (k : string) : bool :=
  match get d k with
  | Some _ => true
  | None => false
  end.

(** An exception names a value when the value occurs in its message. *)
Definition names_value (e : exception) (v : string) : bool :=
  match e with
  | ValueError msg => contains v msg
  | KeyError _ => false
  | OtherError _ msg => contains v msg
  end.

(** ** [to_dict] *)

(** Text mode with universal newlines: a line end written as CR LF or as CR
    is read as LF. *)
Fixpoint translate_newlines (s : string) : string :=
  match s with
  | EmptyString => EmptyString
  | String c s' =>
      if Ascii.eqb c CR then
        match s' with
        | String c' s'' =>
            if Ascii.eqb c' LF then String LF (translate_newlines s'')
            else String LF (translate_newlines s')
        | EmptyString => String LF EmptyString
        end
      else String c (translate_newlines s')
  end.

(** Iterating over a text file: the lines, each with its LF, the last one
    without when the text does not end in one. *)
Fixpoint iter_lines (s : string) : list string :=
  match s with
  | EmptyString => []
  | String c s' =>
      if Ascii.eqb c LF then String LF EmptyString :: iter_lines s'
      else match iter_lines s' with
           | [] => [String c EmptyString]
           | line :: rest => String c line :: rest
           end
  end.

Definition readlines (text : string) : list string :=
  iter_lines (translate_newlines text).

Section Loader.

Context {V : Type}.
Variable filename : string.
Variable value_type : string -> result V.

Definition columns_message (n : nat) : string :=
  "unexpected number of columns on line " ++ str_of_nat n
    ++ " of " ++ filename.

(** The [for n, line in enumerate(f, start=1)] loop; [lines] is the dict
    built so far. *)
Fixpoint to_dict_loop (n : nat) (f : list string) (lines : dict V)
    : result (dict V) :=
  match f with
  | [] => Ok lines
  | line :: f' =>
      let line := strip line in
      if is_empty line then to_dict_loop (S n) f' lines
      else
        let values := split tab line in
        if negb (length values =? 2)%nat then
          Raise (ValueError (columns_message n))
        else
          value <- value_type (nth 1 values EmptyString) ;;
          to_dict_loop (S n) f'
            (setitem lines (nth 0 values EmptyString) value)
  end.

(** [to_dict(filename, value_type)], [text] being what the file holds. *)
Definition to_dict (text : string) : result (dict V) :=
  to_dict_loop 1 (readlines text) [].

(** *** Kinds of lines *)

Definition is_blank (line : string) : bool := is_empty (strip line).

(** A line that is not blank and whose stripped text does not split into
    two fields. *)
Definition is_malformed (line : string) : bool :=
  negb (is_blank line)
  && negb (length (split tab (strip line)) =? 2)%nat.

(** The two fields of a well-formed line. *)
Definition fields (line : string) : option (string * string) :=
  if is_blank line then None
  else match split tab (strip line) with
       | [key; value] => Some (key, value)
       | _ => None
       end.

(** A line the loop goes past: blank, or well formed with a second field
    the conversion accepts. *)
Definition loads (line : string) : bool :=
  is_blank line
  || match fields line with
     | Some (_, value) => is_ok (value_type value)
     | None => false
     end.

Definition key_of (line : string) : option string :=
  option_map fst (fields line).

Definition has_key_of (k : string) (line : string) : bool :=
  match key_of line with
  | Some k' => String.eqb k' k
  | None => false
  end.

End Loader.

(** [str], the default [value_type]: the identity on strings. *)
Definition str (s : string) : result string := Ok s.

Definition is_digit (c : ascii) : bool :=
  let n := nat_of_ascii c in ((48 <=? n) && (n <=? 57))%nat.

Fixpoint digits_value (acc : Z) (s : string) : option Z :=
  match s with
  | EmptyString => Some acc
  | String c s' =>
      if is_digit c
      then digits_value (10 * acc + Z.of_nat (nat_of_ascii c - 48))%Z s'
      else None
  end.

(** A sample conversion a caller may supply, in the manner of [int]: the
    value of a numeral of decimal digits; any other text raises. *)
Definition decimal (s : string) : result Z :=
  match s with
  | EmptyString => Raise (ValueError ("not a decimal numeral: " ++ s))
  | _ => match digits_value 0%Z s with
         | Some n => Ok n
         | None => Raise (ValueError ("not a decimal numeral: " ++ s))
         end
  end.

(** *** Writing a mapping back as text

    The re-serialisation of the specification: the key/value pairs of a
    loaded mapping, tab-joined, one per line. *)

(** Key and value joined by a tab. *)
Definition join_fields (entry : string * string) : string :=
  fst entry ++ String tab (snd entry).

(** One line per item. *)
Definition item_line (entry : string * string) : string :=
  join_fields entry ++ String LF EmptyString.

(** Every line ended by LF, as a loop of writes leaves them. *)
Fixpoint serialize (d : dict string) : string :=
  match d with
  | [] => EmptyString
  | entry :: d' => item_line entry ++ serialize d'
  end.

(** The lines joined by LF, the last one left without. *)
Fixpoint serialize_join (d : dict string) : string :=
  match d with
  | [] => EmptyString
  | [entry] => join_fields entry
  | entry :: d' => join_fields entry ++ String LF (serialize_join d')
  end.

(** *** Sample files *)

Fixpoint join_tab (row : list string) : string :=
  match row with
  | [] => EmptyString
  | [field] => field
  | field :: row' => field ++ String tab (join_tab row')
  end.

(** The text of a file with the given rows, one per line, the fields of a
    row joined by tabs. *)
Fixpoint tsv (rows : list (list string)) : string :=
  match rows with
  | [] => EmptyString
  | row :: rows' => join_tab row ++ String LF (tsv rows')
  end.

(** A malformed second line after a first line whose value is no numeral. *)
Definition text_bad_value_then_bad_columns : string :=
  tsv [["A"; "x"]; ["B"; "C"; "D"]].

(** A malformed first line before a line whose value is no numeral. *)
Definition text_bad_columns_then_bad_value : string :=
  tsv [["A"; "B"; "C"]; ["D"; "foo"]].

(** The key "A" on the first line and again on the third. *)
Definition text_duplicate_key : string :=
  tsv [["A"; "3"]; ["B"; "5"]; ["A"; "7"]].

(** *** Lines of a text file, items of a loaded mapping *)

Fixpoint has_char (c : ascii) (s : string) : bool :=
  match s with
  | EmptyString => false
  | String c' s' => Ascii.eqb c' c || has_char c s'
  end.

(** A line as the iteration over a text file yields it: no CR, and no LF
    but for its end. *)
Definition file_line (line : string) : Prop :=
  exists body,
    has_char LF body = false /\ has_char CR body = false
    /\ (line = body \/ line = (body ++ String LF EmptyString)%string).

(** An item whose line, written by [item_line], reads back as the item. *)
Definition good_entry (entry : string * string) : Prop :=
  strip (join_fields entry) = join_fields entry
  /\ is_empty (join_fields entry) = false
  /\ split tab (join_fields entry) = [fst entry; snd entry]
  /\ has_char LF (join_fields entry) = false
  /\ has_char CR (join_fields entry) = false.

(** *** Conditions on the two mappings *)

(** Every outcome value is "R" or "D". *)
Definition all_valid (outcome_dict : dict string) : bool :=
  forallb (fun entry => valid_outcome (snd entry)) (items outcome_dict).

(** Every region of the outcome mapping has an elector count. *)
Definition all_known (elector_dict : dict Z) (outcome_dict : dict string)
    : bool :=
  forallb (fun entry => has_key elector_dict (fst entry)) (items outcome_dict).

(** ** [read_data] and the script *)



Section Script.

(** The builtin [int] applied to a string, and the text each file name
    stands for. *)
Variable int : string -> result Z.
Variable fs : string -> string.

Definition read_data (elector_file outcome_file : string)
    : result (dict Z * dict string) :=
  elector_dict <- to_dict elector_file int (fs elector_file) ;;
  outcome_dict <- to_dict outcome_file str (fs outcome_file) ;;
  Ok (elector_dict, outcome_dict).



End Script.

(** *** Notions the further properties are stated with *)

(** The other party; any other label is left as it is. *)
Definition swap_party (label : string) : string :=
  if String.eqb label "R" then "D"
  else if String.eqb label "D" then "R"
  else label.

Definition swap_outcomes (outcome_dict : dict string) : dict string :=
  map (fun entry => (fst entry, swap_party (snd entry))) outcome_dict.

(** An entry the loop of [get_winner] goes past. *)
Definition tallies (elector_dict : dict Z) (entry : string * string) : bool :=
  valid_outcome (snd entry) && has_key elector_dict (fst entry).

(** Every elector count is at least 0. *)
Definition counts_nonneg (elector_dict : dict Z) : bool :=
  forallb (fun entry => (0 <=? snd entry)%Z) (items elector_dict).

(** The first fields of the well-formed lines, in the order of the lines. *)
Fixpoint line_keys (lines : list string) : list string :=
  match lines with
  | [] => []
  | line :: lines' =>
      match key_of line with
      | Some k => k :: line_keys lines'
      | None => line_keys lines'
      end
  end.

(** The elements of a list, each at the place of its first occurrence. *)
Definition first_occurrences (l : list string) : list string :=
  rev (nodup string_dec (rev l)).

(** Two files for examples. *)
Definition sample_fs (filename : string) : string :=
  if String.eqb filename "electors.txt" then
    tsv [["A"; "3"]; ["B"; "5"]; ["C"; "2"]]
  else if String.eqb filename "outcomes.txt" then
    tsv [["A"; "R"]; ["B"; "D"]; ["C"; "D"]]
  else if String.eqb filename "ties.txt" then
    tsv [["A"; "R"]; ["B"; "D"]; ["C"; "R"]]
  else if String.eqb filename "padded.txt" then
    tsv [[" A"; "R "]; []; ["B"; "D"]; ["  "]; ["A"; "D"]]
  else if String.eqb filename "bad_label.txt" then
    tsv [["A"; "R"]; ["B"; "X"]]
  else if String.eqb filename "bad_columns.txt" then
    tsv [["A"; "R"]; ["B"]]
  else if String.eqb filename "missing.txt" then
    tsv [["A"; "R"]; ["Z"; "D"]]
  else EmptyString.

(** * Properties of [get_winner] *)

Lemma valid_outcome_cases (v : string) :
  valid_outcome v = true <-> v = "R" \/ v = "D".
Proof.
  unfold valid_outcome. rewrite orb_true_iff, !String.eqb_eq. tauto.
Qed.

Lemma invalid_outcome_cases (v : string) :
  valid_outcome v = false ->
  String.eqb v "R" = false /\ String.eqb v "D" = false.
Proof.
  unfold valid_outcome. apply orb_false_elim.
Qed.

Lemma getitem_known (e : dict Z) (k : string) :
  has_key e k = true -> getitem e k = Ok (elector_count e k).
Proof.
  unfold has_key, getitem, elector_count.
  destruct (get e k); [reflexivity | discriminate].
Qed.

Lemma getitem_unknown (e : dict Z) (k : string) :
  has_key e k = false -> getitem e k = Raise (KeyError k).
Proof.
  unfold has_key, getitem. destruct (get e k); [discriminate | reflexivity].
Qed.

Lemma tally_entry_invalid (e : dict Z) (totals : Z * Z) (k v : string) :
  valid_outcome v = false ->
  tally_entry e totals (k, v) = Raise (ValueError invalid_outcome_message).
Proof.
  intros Hv. destruct (invalid_outcome_cases v Hv) as [HR HD].
  destruct totals as [r d]. unfold tally_entry. now rewrite HR, HD.
Qed.

(** The loop over entries that are all valid and all known adds, to each
    running total, the sum the specification describes. *)
Lemma tally_loop_totals (e : dict Z) (o : dict string) :
  all_valid o = true -> all_known e o = true ->
  forall r d,
    tally_loop e (items o) (r, d)
    = Ok ((r + party_total e o "R")%Z, (d + party_total e o "D")%Z).
Proof.
  unfold all_valid, all_known, party_total, regions_of, items.
  induction o as [|[k v] o IH]; intros Hv Hk r d; simpl in *.
  - now rewrite !Z.add_0_r.
  - apply andb_prop in Hv as [Hv Hvs]. apply andb_prop in Hk as [Hk Hks].
    rewrite (getitem_known _ _ Hk).
    apply valid_outcome_cases in Hv as [-> | ->]; simpl;
      rewrite (IH Hvs Hks); f_equal; f_equal; lia.
Qed.

(** The loop stops at the first entry that is not valid, whatever follows. *)
Lemma tally_loop_first_invalid (e : dict Z) (pre post : dict string)
    (k v : string) :
  all_valid pre = true -> all_known e pre = true ->
  valid_outcome v = false ->
  forall totals,
    tally_loop e (pre ++ (k, v) :: post) totals
    = Raise (ValueError invalid_outcome_message).
Proof.
  unfold all_valid, all_known, items.
  induction pre as [|[k0 v0] pre IH]; intros Hv Hk Hbad [r d].
  - simpl app. cbn [tally_loop]. now rewrite tally_entry_invalid.
  - simpl in Hv, Hk.
    apply andb_prop in Hv as [Hv Hvs]. apply andb_prop in Hk as [Hk Hks].
    simpl. rewrite (getitem_known _ _ Hk).
    apply valid_outcome_cases in Hv as [-> | ->]; simpl; now apply IH.
Qed.

Lemma first_invalid_split (o : dict string) :
  all_valid o = false ->
  exists pre k v post,
    o = pre ++ (k, v) :: post
    /\ all_valid pre = true /\ valid_outcome v = false.
Proof.
  unfold all_valid, items.
  induction o as [|[k v] o IH]; simpl; intros H; [discriminate|].
  destruct (valid_outcome v) eqn:Hv.
  - destruct (IH H) as (pre & k' & v' & post & -> & Hpre & Hv').
    exists ((k, v) :: pre), k', v', post. simpl. now rewrite Hv, Hpre.
  - now exists [], k, v, o.
Qed.

Lemma all_known_app (e : dict Z) (o1 o2 : dict string) :
  all_known e (o1 ++ o2) = all_known e o1 && all_known e o2.
Proof. unfold all_known, items. apply forallb_app. Qed.

(** A lookup failure of the loop comes from a valid entry of that region. *)
Lemma tally_loop_key_error (e : dict Z) (entries : list (string * string))
    (k : string) :
  forall totals,
    tally_loop e entries totals = Raise (KeyError k) ->
    exists v, In (k, v) entries /\ valid_outcome v = true
              /\ get e k = None.
Proof.
  induction entries as [|[k0 v0] entries IH]; intros [r d] H;
    cbn [tally_loop] in H.
  - discriminate.
  - destruct (valid_outcome v0) eqn:Hv0.
    + assert (Hstep : forall t, tally_entry e (r, d) (k0, v0) = Ok t ->
                tally_loop e entries t = Raise (KeyError k) ->
                exists v, In (k, v) ((k0, v0) :: entries)
                          /\ valid_outcome v = true /\ get e k = None).
      { intros t _ Ht. destruct (IH t Ht) as (v & Hin & Hv & Hg).
        exists v. auto using in_cons. }
      unfold tally_entry, getitem in H, Hstep.
      apply valid_outcome_cases in Hv0 as Hc.
      destruct Hc as [-> | ->]; simpl in H, Hstep;
        (destruct (get e k0) eqn:Hg; simpl in H, Hstep;
         [ eapply Hstep; [reflexivity | exact H]
         | injection H as <-; eexists; split; [left; reflexivity | auto] ]).
    + rewrite tally_entry_invalid in H by assumption. discriminate.
Qed.

Lemma wf_dict_functional {V : Type} (d : dict V) (k : string) (v v' : V) :
  wf_dict d -> In (k, v) d -> In (k, v') d -> v = v'.
Proof.
  unfold wf_dict, keys.
  induction d as [|[k0 v0] d IH]; simpl; intros Hnd H1 H2; [contradiction|].
  inversion Hnd as [|? ? Hnotin Hnd']; subst.
  destruct H1 as [H1 | H1], H2 as [H2 | H2].
  - congruence.
  - injection H1 as -> ->. exfalso. apply Hnotin.
    change k with (fst (k, v')). now apply in_map.
  - injection H2 as -> ->. exfalso. apply Hnotin.
    change k with (fst (k, v)). now apply in_map.
  - now apply IH.
Qed.

Lemma st_tally_entry_spec (totals : Z * Z) (entry : string * string)
    (h : store) :
  st_tally_entry totals entry h
  = (h, tally_entry (elector_obj h) totals entry).
Proof.
  destruct totals as [r d], entry as [k v].
  unfold st_tally_entry, tally_entry, st_bind, st_elector_getitem, st_ret,
    st_raise.
  destruct (String.eqb v "R"); [|destruct (String.eqb v "D")];
    try reflexivity; now destruct (getitem (elector_obj h) k).
Qed.

Lemma st_tally_loop_spec (entries : list (string * string)) (h : store) :
  forall totals,
    st_tally_loop entries totals h
    = (h, tally_loop (elector_obj h) entries totals).
Proof.
  induction entries as [|entry entries IH]; intros totals; simpl.
  - reflexivity.
  - unfold st_bind. rewrite st_tally_entry_spec.
    destruct (tally_entry (elector_obj h) totals entry); simpl; auto.
Qed.

Lemma st_get_winner_spec (h : store) :
  st_get_winner h = (h, get_winner (elector_obj h) (outcome_obj h)).
Proof.
  unfold st_get_winner, get_winner, st_bind, st_outcome_items.
  rewrite st_tally_loop_spec.
  now destruct (tally_loop (elector_obj h) (items (outcome_obj h)) (0%Z, 0%Z)).
Qed.

(** C1. For an elector mapping and an outcome mapping whose values are all
    "R" or "D" and whose regions all have an elector count, [get_winner]
    returns ("R", R-total) when the R-total is the larger, ("D", D-total)
    when the D-total is the larger and ("Tie", the shared total) when they
    are equal, each total being the sum of the elector counts of the regions
    assigned to that party. *)
Theorem get_winner_correct (elector_dict : dict Z) (outcome_dict : dict string) :
  all_valid outcome_dict = true ->
  all_known elector_dict outcome_dict = true ->
  let total_R := party_total elector_dict outcome_dict "R" in
  let total_D := party_total elector_dict outcome_dict "D" in
  ((total_R > total_D)%Z ->
     get_winner elector_dict outcome_dict = Ok ("R", total_R))
  /\ ((total_D > total_R)%Z ->
     get_winner elector_dict outcome_dict = Ok ("D", total_D))
  /\ (total_R = total_D ->
     get_winner elector_dict outcome_dict = Ok ("Tie", total_R)
     /\ get_winner elector_dict outcome_dict = Ok ("Tie", total_D)).
Proof.
  intros Hv Hk total_R total_D. unfold get_winner.
  rewrite (tally_loop_totals _ _ Hv Hk). simpl Z.add. fold total_R total_D.
  unfold bind, decide_winner.
  split; [|split]; intros H.
  - destruct (Z.gtb_spec total_R total_D); [reflexivity | lia].
  - destruct (Z.gtb_spec total_R total_D); [lia|].
    destruct (Z.gtb_spec total_D total_R); [reflexivity | lia].
  - rewrite <- H.
    destruct (Z.gtb_spec total_R total_R); [lia | auto].
Qed.

Lemma get_winner_correct_witness :
  get_winner [("A", 3%Z); ("B", 5%Z); ("C", 2%Z)]
             [("A", "R"); ("B", "D"); ("C", "D")] = Ok ("D", 7%Z).
Proof.
  refine (proj1 (proj2 (get_winner_correct
            [("A", 3%Z); ("B", 5%Z); ("C", 2%Z)]
            [("A", "R"); ("B", "D"); ("C", "D")] _ _)) _).
  - reflexivity.
  - reflexivity.
  - vm_compute. reflexivity.
Defined.

(** C2, as the code has it. When every region of the outcome mapping has an
    elector count and some outcome value is neither "R" nor "D",
    [get_winner] raises the ValueError with the fixed message
    [invalid_outcome_message]; it is raised at the first such entry, and the
    entries after it play no part. *)
Theorem get_winner_invalid_outcome (elector_dict : dict Z)
    (outcome_dict : dict string) :
  all_known elector_dict outcome_dict = true ->
  all_valid outcome_dict = false ->
  get_winner elector_dict outcome_dict
    = Raise (ValueError invalid_outcome_message)
  /\ exists pre k v post,
       outcome_dict = pre ++ (k, v) :: post
       /\ all_valid pre = true
       /\ valid_outcome v = false
       /\ forall post',
            get_winner elector_dict (pre ++ (k, v) :: post')
            = Raise (ValueError invalid_outcome_message).
Proof.
  intros Hk Hv.
  destruct (first_invalid_split _ Hv) as (pre & k & v & post & -> & Hpre & Hbad).
  rewrite all_known_app in Hk. apply andb_prop in Hk as [Hkpre _].
  assert (Hall : forall post',
            get_winner elector_dict (pre ++ (k, v) :: post')
            = Raise (ValueError invalid_outcome_message)).
  { intros post'. unfold get_winner, items.
    now rewrite (tally_loop_first_invalid _ _ _ _ _ Hpre Hkpre Hbad). }
  split; [apply Hall|]. now exists pre, k, v, post.
Qed.

Lemma get_winner_invalid_outcome_witness :
  get_winner [("A", 3%Z); ("B", 5%Z)] [("A", "R"); ("B", "X")]
  = Raise (ValueError invalid_outcome_message).
Proof.
  refine (proj1 (get_winner_invalid_outcome
            [("A", 3%Z); ("B", 5%Z)] [("A", "R"); ("B", "X")] _ _));
    reflexivity.
Defined.

(** C2, as stated, fails: the exception raised for the outcome value "X"
    does not name that value. *)
Lemma get_winner_error_does_not_name_value :
  all_known [("A", 3%Z)] [("A", "X")] = true
  /\ valid_outcome "X" = false
  /\ ~ exists e,
         get_winner [("A", 3%Z)] [("A", "X")] = Raise e
         /\ names_value e "X" = true.
Proof.
  split; [reflexivity|]. split; [reflexivity|].
  intros (e & He & Hn). vm_compute in He. injection He as <-.
  vm_compute in Hn. discriminate.
Qed.

(** The exception is the same whatever the offending value. *)
Lemma get_winner_error_independent_of_value (elector_dict : dict Z)
    (k v v' : string) :
  valid_outcome v = false -> valid_outcome v' = false ->
  get_winner elector_dict [(k, v)] = get_winner elector_dict [(k, v')].
Proof.
  intros Hv Hv'. unfold get_winner, items. cbn [tally_loop].
  now rewrite !tally_entry_invalid.
Qed.

(** C3. When every outcome value is "R" or "D" and some region of the
    outcome mapping has no elector count, [get_winner] raises the KeyError
    of the lookup of such a region, as the lookup raises it. *)
Theorem get_winner_missing_region (elector_dict : dict Z)
    (outcome_dict : dict string) :
  all_valid outcome_dict = true ->
  all_known elector_dict outcome_dict = false ->
  exists k e,
    In k (keys outcome_dict)
    /\ get elector_dict k = None
    /\ getitem elector_dict k = Raise e
    /\ e = KeyError k
    /\ get_winner elector_dict outcome_dict = Raise e.
Proof.
  unfold get_winner, all_valid, all_known, items, keys.
  generalize (0%Z, 0%Z).
  induction outcome_dict as [|[k v] o IH]; intros [r d] Hv Hk; simpl in *.
  - discriminate.
  - apply andb_prop in Hv as [Hv Hvs].
    destruct (has_key elector_dict k) eqn:Hkk.
    + simpl in Hk. rewrite (getitem_known _ _ Hkk).
      apply valid_outcome_cases in Hv as [-> | ->]; simpl;
        (edestruct IH as (k' & e & Hin & Hg & Hgi & He & Hw);
         [exact Hvs | exact Hk |];
         exists k', e; repeat split; eauto).
    + pose proof (getitem_unknown _ _ Hkk) as Hgi.
      exists k, (KeyError k). rewrite Hgi.
      assert (get elector_dict k = None).
      { unfold has_key in Hkk. now destruct (get elector_dict k). }
      apply valid_outcome_cases in Hv as [-> | ->]; simpl; auto 6.
Qed.

Lemma get_winner_missing_region_witness :
  exists k e,
    In k (keys [("A", "R"); ("Z", "D")])
    /\ get [("A", 3%Z)] k = None
    /\ getitem [("A", 3%Z)] k = Raise e
    /\ e = KeyError k
    /\ get_winner [("A", 3%Z)] [("A", "R"); ("Z", "D")] = Raise e.
Proof.
  apply (get_winner_missing_region [("A", 3%Z)] [("A", "R"); ("Z", "D")]);
    reflexivity.
Defined.

(** C7. Run on a store holding the two mappings, [get_winner] hands the store
    back as it received it, and its result is a function of the two mappings:
    a second call on the store the first one left returns the same result
    and leaves the same store. *)
Theorem get_winner_pure (h : store) :
  let '(h1, r1) := st_get_winner h in
  let '(h2, r2) := st_get_winner h1 in
  h1 = h /\ h2 = h /\ r1 = r2
  /\ r1 = get_winner (elector_obj h) (outcome_obj h).
Proof.
  rewrite st_get_winner_spec, st_get_winner_spec. auto.
Qed.

(** C9. For the empty outcome mapping and any elector mapping, [get_winner]
    returns ("Tie", 0). *)
Theorem get_winner_empty (elector_dict : dict Z) :
  get_winner elector_dict [] = Ok ("Tie", 0%Z).
Proof. reflexivity. Qed.

(** C10. An entry whose outcome value is neither "R" nor "D" raises the
    invalid-outcome error for every elector mapping, so without regard to
    the region having an elector count; [get_winner] never reports the
    region of such an entry as a lookup failure, and reports the invalid
    outcome when the loop reaches the entry. *)
Theorem invalid_outcome_precedes_lookup (elector_dict : dict Z)
    (pre post : dict string) (k v : string) :
  valid_outcome v = false ->
  wf_dict (pre ++ (k, v) :: post) ->
  (forall e totals,
     tally_entry e totals (k, v) = Raise (ValueError invalid_outcome_message))
  /\ get_winner elector_dict (pre ++ (k, v) :: post) <> Raise (KeyError k)
  /\ (is_ok (tally_loop elector_dict (items pre) (0%Z, 0%Z)) = true ->
      get_winner elector_dict (pre ++ (k, v) :: post)
      = Raise (ValueError invalid_outcome_message)).
Proof.
  intros Hbad Hwf. split; [|split].
  - intros e totals. now apply tally_entry_invalid.
  - unfold get_winner, items. intros H.
    destruct (tally_loop elector_dict (pre ++ (k, v) :: post) (0%Z, 0%Z))
      as [t|e] eqn:Hloop; simpl in H; [discriminate|].
    injection H as ->.
    destruct (tally_loop_key_error _ _ _ _ Hloop) as (v' & Hin & Hv' & _).
    assert (v' = v).
    { eapply wf_dict_functional; [exact Hwf | exact Hin |].
      apply in_or_app. right. now left. }
    subst v'. congruence.
  - unfold get_winner, items. generalize (0%Z, 0%Z).
    clear Hwf. induction pre as [|entry pre IH]; intros totals Hok.
    + simpl app. cbn [tally_loop]. now rewrite tally_entry_invalid.
    + simpl app. cbn [tally_loop] in *.
      destruct (tally_entry elector_dict totals entry); simpl in *;
        [now apply IH | discriminate].
Qed.

Lemma invalid_outcome_precedes_lookup_witness :
  has_key [("A", 3%Z)] "Z" = false
  /\ get_winner [("A", 3%Z)] [("A", "R"); ("Z", "X"); ("B", "D")]
     = Raise (ValueError invalid_outcome_message).
Proof.
  split; [reflexivity|].
  refine (proj2 (proj2 (invalid_outcome_precedes_lookup
            [("A", 3%Z)] [("A", "R")] [("B", "D")] "Z" "X" _ _)) _).
  - reflexivity.
  - unfold wf_dict, keys. simpl.
    repeat constructor; simpl; intuition discriminate.
  - reflexivity.
Defined.

(** * Properties of strings and dicts *)

Lemma append_assoc (a b c : string) :
  ((a ++ b) ++ c = a ++ (b ++ c))%string.
Proof. induction a; simpl; congruence. Qed.

Lemma has_char_app (c : ascii) (a b : string) :
  has_char c (a ++ b) = has_char c a || has_char c b.
Proof.
  induction a as [|x a IH]; simpl; [reflexivity|].
  now rewrite IH, orb_assoc.
Qed.

Lemma has_char_lstrip (c : ascii) (s : string) :
  has_char c s = false -> has_char c (lstrip s) = false.
Proof.
  induction s as [|x s IH]; simpl; [auto|].
  intros H. apply orb_false_elim in H as [Hx Hs].
  destruct (isspace x); [auto | simpl; now rewrite Hx, Hs].
Qed.

Lemma has_char_rstrip (c : ascii) (s : string) :
  has_char c s = false -> has_char c (rstrip s) = false.
Proof.
  induction s as [|x s IH]; simpl; [auto|].
  intros H. apply orb_false_elim in H as [Hx Hs]. specialize (IH Hs).
  destruct (rstrip s) as [|y r].
  - destruct (isspace x); simpl; [reflexivity | now rewrite Hx].
  - cbn [has_char]. cbn [has_char] in IH. now rewrite Hx, IH.
Qed.

Lemma has_char_strip (c : ascii) (s : string) :
  has_char c s = false -> has_char c (strip s) = false.
Proof. intros H. now apply has_char_rstrip, has_char_lstrip. Qed.

Lemma rstrip_idem (s : string) : rstrip (rstrip s) = rstrip s.
Proof.
  induction s as [|c s IH]; simpl; [reflexivity|].
  destruct (rstrip s) as [|a r] eqn:Hr.
  - destruct (isspace c) eqn:Hc; simpl; [reflexivity | now rewrite Hc].
  - change (rstrip (String c (String a r))) with
      (match rstrip (String a r) with
       | EmptyString => if isspace c then EmptyString else String c EmptyString
       | String _ _ as t => String c t
       end).
    now rewrite IH.
Qed.

Lemma rstrip_app_space (c : ascii) (s : string) :
  isspace c = true -> rstrip (s ++ String c EmptyString) = rstrip s.
Proof.
  intros Hc. induction s as [|a s IH]; simpl.
  - now rewrite Hc.
  - now rewrite IH.
Qed.

Lemma lstrip_app_space (c : ascii) (s : string) :
  isspace c = true ->
  lstrip (s ++ String c EmptyString)
  = if is_empty (lstrip s) then EmptyString
    else (lstrip s ++ String c EmptyString)%string.
Proof.
  intros Hc. induction s as [|a s IH]; simpl.
  - now rewrite Hc.
  - destruct (isspace a); [exact IH | reflexivity].
Qed.

Lemma strip_app_space (c : ascii) (s : string) :
  isspace c = true -> strip (s ++ String c EmptyString) = strip s.
Proof.
  intros Hc. unfold strip. rewrite (lstrip_app_space _ _ Hc).
  destruct (lstrip s); simpl is_empty; cbv iota.
  - reflexivity.
  - now apply rstrip_app_space.
Qed.

Lemma lstrip_head (s : string) (a : ascii) (r : string) :
  lstrip s = String a r -> isspace a = false.
Proof.
  induction s as [|c s IH]; simpl; [discriminate|].
  destruct (isspace c) eqn:Hc; [exact IH | congruence].
Qed.

Lemma rstrip_head (s : string) (a : ascii) (r : string) :
  rstrip s = String a r -> exists s', s = String a s'.
Proof.
  destruct s as [|c s]; simpl; [discriminate|].
  destruct (rstrip s); [destruct (isspace c)|]; intros H;
    try discriminate; injection H as -> _; eauto.
Qed.

Lemma strip_head (s : string) (a : ascii) (r : string) :
  strip s = String a r -> isspace a = false.
Proof.
  unfold strip. intros H. destruct (rstrip_head _ _ _ H) as [s' Hs'].
  now apply lstrip_head in Hs'.
Qed.

Lemma strip_idem (s : string) : strip (strip s) = strip s.
Proof.
  destruct (strip s) as [|a r] eqn:Hs; [reflexivity|].
  pose proof (strip_head _ _ _ Hs) as Ha.
  unfold strip at 1. simpl lstrip. rewrite Ha.
  rewrite <- Hs. unfold strip. apply rstrip_idem.
Qed.

Lemma split_nonempty (sep : ascii) (s : string) : split sep s <> [].
Proof.
  destruct s as [|c s]; simpl; [discriminate|].
  destruct (Ascii.eqb c sep); [discriminate|].
  destruct (split sep s); discriminate.
Qed.

Lemma split_one (sep : ascii) (s v : string) :
  split sep s = [v] -> s = v.
Proof.
  revert v. induction s as [|c s IH]; simpl; intros v H.
  - congruence.
  - destruct (Ascii.eqb c sep).
    + injection H as _ H. now apply split_nonempty in H.
    + destruct (split sep s) as [|f fs] eqn:Hs.
      * now apply split_nonempty in Hs.
      * injection H as <- ->. now rewrite (IH f eq_refl).
Qed.

Lemma split_two (sep : ascii) (s k v : string) :
  split sep s = [k; v] -> s = (k ++ String sep v)%string.
Proof.
  revert k. induction s as [|c s IH]; simpl; intros k H.
  - discriminate.
  - destruct (Ascii.eqb c sep) eqn:Hc.
    + apply Ascii.eqb_eq in Hc as ->. injection H as <- H.
      now rewrite (split_one _ _ _ H).
    + destruct (split sep s) as [|f fs] eqn:Hs.
      * discriminate.
      * injection H as <- ->. now rewrite (IH f eq_refl).
Qed.

Lemma get_setitem_same {V : Type} (d : dict V) (k : string) (v : V) :
  get (setitem d k v) k = Some v.
Proof.
  induction d as [|[k' v'] d IH]; simpl.
  - now rewrite String.eqb_refl.
  - destruct (String.eqb k' k) eqn:E; simpl; now rewrite E.
Qed.

Lemma get_setitem_other {V : Type} (d : dict V) (k k' : string) (v : V) :
  k <> k' -> get (setitem d k v) k' = get d k'.
Proof.
  intros Hne. induction d as [|[k0 v0] d IH]; simpl.
  - apply String.eqb_neq in Hne. now rewrite Hne.
  - destruct (String.eqb k0 k) eqn:E; simpl.
    + apply String.eqb_eq in E as ->.
      apply String.eqb_neq in Hne. now rewrite Hne.
    + now rewrite IH.
Qed.

Lemma in_keys_setitem {V : Type} (d : dict V) (k x : string) (v : V) :
  In x (keys (setitem d k v)) <-> x = k \/ In x (keys d).
Proof.
  unfold keys. induction d as [|[k' v'] d IH]; simpl.
  - intuition.
  - destruct (String.eqb k' k) eqn:E; simpl.
    + apply String.eqb_eq in E as ->. intuition.
    + rewrite IH. intuition.
Qed.

Lemma wf_dict_setitem {V : Type} (d : dict V) (k : string) (v : V) :
  wf_dict d -> wf_dict (setitem d k v).
Proof.
  unfold wf_dict. induction d as [|[k' v'] d IH]; intros Hnd.
  - simpl. constructor; [intros [] | constructor].
  - inversion Hnd as [|? ? Hnotin Hnd']; subst. simpl.
    destruct (String.eqb k' k) eqn:E; [exact Hnd|].
    change (NoDup (k' :: keys (setitem d k v))).
    constructor; [|now apply IH].
    rewrite in_keys_setitem. intros [-> | H]; [|now apply Hnotin].
    now rewrite String.eqb_refl in E.
Qed.

Lemma setitem_new {V : Type} (d : dict V) (k : string) (v : V) :
  ~ In k (keys d) -> setitem d k v = d ++ [(k, v)].
Proof.
  unfold keys. induction d as [|[k' v'] d IH]; simpl; intros Hnotin.
  - reflexivity.
  - destruct (String.eqb k' k) eqn:E.
    + apply String.eqb_eq in E. tauto.
    + rewrite IH; tauto.
Qed.

(** * Properties of the loader's loop *)

Section LoaderFacts.

Context {V : Type}.
Variable filename : string.
Variable value_type : string -> result V.

Local Notation "'loop'" := (to_dict_loop filename value_type).

Lemma fields_inv (line k v : string) :
  fields line = Some (k, v) ->
  is_empty (strip line) = false /\ split tab (strip line) = [k; v].
Proof.
  unfold fields, is_blank. destruct (is_empty (strip line)); [discriminate|].
  destruct (split tab (strip line)) as [|a [|b [|c l]]]; try discriminate.
  intros H. injection H as -> ->. auto.
Qed.

Lemma line_cases (line : string) :
  is_blank line = true \/ is_malformed line = true
  \/ exists k v, fields line = Some (k, v).
Proof.
  unfold is_malformed, fields. destruct (is_blank line); [now left|].
  right. destruct (split tab (strip line)) as [|a [|b [|c l]]];
    simpl; eauto.
Qed.

Lemma loop_blank (n : nat) (line : string) (f : list string) (acc : dict V) :
  is_blank line = true -> loop n (line :: f) acc = loop (S n) f acc.
Proof. unfold is_blank. simpl. now intros ->. Qed.

Lemma loop_malformed (n : nat) (line : string) (f : list string)
    (acc : dict V) :
  is_malformed line = true ->
  loop n (line :: f) acc = Raise (ValueError (columns_message filename n)).
Proof.
  unfold is_malformed, is_blank. simpl.
  intros H. apply andb_prop in H as [H1 H2].
  apply negb_true_iff in H1. rewrite H1. now rewrite H2.
Qed.

Lemma loop_fields (n : nat) (line k v : string) (f : list string)
    (acc : dict V) :
  fields line = Some (k, v) ->
  loop n (line :: f) acc
  = (value <- value_type v ;; loop (S n) f (setitem acc k value)).
Proof.
  intros H. apply fields_inv in H as [H1 H2].
  simpl. now rewrite H1, H2.
Qed.

Lemma loop_app (pre rest : list string) :
  forall n acc,
    loop n (pre ++ rest) acc
    = (acc' <- loop n pre acc ;; loop (n + length pre) rest acc').
Proof.
  induction pre as [|line pre IH]; intros n acc.
  - simpl. now rewrite Nat.add_0_r.
  - change ((line :: pre) ++ rest) with (line :: (pre ++ rest)).
    simpl length. rewrite Nat.add_succ_r, <- Nat.add_succ_l.
    destruct (line_cases line) as [Hb | [Hm | (k & v & Hf)]].
    + rewrite !(loop_blank _ _ _ _ Hb). apply IH.
    + now rewrite !(loop_malformed _ _ _ _ Hm).
    + rewrite !(loop_fields _ _ _ _ _ _ Hf).
      destruct (value_type v); simpl; [apply IH | reflexivity].
Qed.

(** Lines that all load are gone past. *)
Lemma loop_loads (pre : list string) :
  forallb (loads value_type) pre = true ->
  forall n acc, exists acc', loop n pre acc = Ok acc'.
Proof.
  induction pre as [|line pre IH]; intros H n acc; simpl in H.
  - now exists acc.
  - apply andb_prop in H as [Hl Hpre]. unfold loads in Hl.
    destruct (is_blank line) eqn:Hb.
    + rewrite (loop_blank _ _ _ _ Hb). now apply IH.
    + simpl in Hl. destruct (fields line) as [[k v]|] eqn:Hf;
        [|discriminate].
      rewrite (loop_fields _ _ _ _ _ _ Hf).
      destruct (value_type v); [simpl; now apply IH | discriminate].
Qed.

(** A line that does not load makes the whole loop raise. *)
Lemma loop_raises (pre : list string) (line : string) (post : list string) :
  loads value_type line = false ->
  forall n acc, exists e, loop n (pre ++ line :: post) acc = Raise e.
Proof.
  intros Hbad. induction pre as [|l pre IH]; intros n acc.
  - simpl app. unfold loads in Hbad.
    apply orb_false_elim in Hbad as [Hb Hf].
    destruct (line_cases line) as [Hb' | [Hm | (k & v & Hkv)]].
    + congruence.
    + rewrite (loop_malformed _ _ _ _ Hm). eauto.
    + rewrite (loop_fields _ _ _ _ _ _ Hkv). rewrite Hkv in Hf.
      destruct (value_type v); [discriminate | simpl; eauto].
  - change ((l :: pre) ++ line :: post) with (l :: (pre ++ line :: post)).
    destruct (line_cases l) as [Hb | [Hm | (k & v & Hkv)]].
    + rewrite (loop_blank _ _ _ _ Hb). apply IH.
    + rewrite (loop_malformed _ _ _ _ Hm). eauto.
    + rewrite (loop_fields _ _ _ _ _ _ Hkv).
      destruct (value_type v); simpl; [apply IH | eauto].
Qed.

(** Lines without the key [k] leave its binding as it was. *)
Lemma loop_keeps (k : string) (post : list string) :
  forallb (fun line => negb (has_key_of k line)) post = true ->
  forall n acc d, loop n post acc = Ok d -> get d k = get acc k.
Proof.
  induction post as [|line post IH]; intros H n acc d Hd; simpl in H.
  - simpl in Hd. congruence.
  - apply andb_prop in H as [Hl Hpost].
    destruct (line_cases line) as [Hb | [Hm | (k' & v & Hkv)]].
    + rewrite (loop_blank _ _ _ _ Hb) in Hd. eauto.
    + rewrite (loop_malformed _ _ _ _ Hm) in Hd. discriminate.
    + rewrite (loop_fields _ _ _ _ _ _ Hkv) in Hd.
      destruct (value_type v) as [x|]; simpl in Hd; [|discriminate].
      rewrite (IH Hpost _ _ _ Hd).
      apply get_setitem_other.
      unfold has_key_of, key_of in Hl. rewrite Hkv in Hl. simpl in Hl.
      apply negb_true_iff in Hl. now apply String.eqb_neq.
Qed.

(** A property of the dict that every assignment keeps holds of the
    result. *)
Lemma loop_invariant (P : dict V -> Prop) (f : list string) :
  (forall acc line k v x,
     In line f -> P acc -> fields line = Some (k, v) ->
     value_type v = Ok x -> P (setitem acc k x)) ->
  forall n acc d, P acc -> loop n f acc = Ok d -> P d.
Proof.
  induction f as [|line f IH]; intros Hstep n acc d Hacc Hd.
  - simpl in Hd. congruence.
  - assert (Hstep' : forall acc line k v x,
              In line f -> P acc -> fields line = Some (k, v) ->
              value_type v = Ok x -> P (setitem acc k x)).
    { intros. eapply Hstep; eauto. now right. }
    destruct (line_cases line) as [Hb | [Hm | (k & v & Hkv)]].
    + rewrite (loop_blank _ _ _ _ Hb) in Hd. eauto.
    + rewrite (loop_malformed _ _ _ _ Hm) in Hd. discriminate.
    + rewrite (loop_fields _ _ _ _ _ _ Hkv) in Hd.
      destruct (value_type v) as [x|] eqn:Hx; simpl in Hd; [|discriminate].
      eapply (IH Hstep' _ _ _ _ Hd). Unshelve.
      eapply Hstep; eauto. now left.
Qed.

End LoaderFacts.

(** * Properties of [to_dict] *)

Lemma malformed_not_loads {V : Type} (value_type : string -> result V)
    (line : string) :
  is_malformed line = true -> loads value_type line = false.
Proof.
  unfold is_malformed, loads, fields. intros H.
  apply andb_prop in H as [Hb Hn]. apply negb_true_iff in Hb. rewrite Hb.
  destruct (split tab (strip line)) as [|a [|b [|c l]]];
    try reflexivity; discriminate.
Qed.

(** The first line that does not load, when it is malformed, is reported
    with its number. *)
Lemma to_dict_columns_error {V : Type} (filename : string)
    (value_type : string -> result V) (text : string)
    (pre : list string) (line : string) (post : list string) :
  readlines text = pre ++ line :: post ->
  is_malformed line = true ->
  forallb (loads value_type) pre = true ->
  to_dict filename value_type text
  = Raise (ValueError (columns_message filename (S (length pre)))).
Proof.
  intros Hlines Hbad Hpre. unfold to_dict. rewrite Hlines, loop_app.
  destruct (loop_loads filename value_type pre Hpre 1 []) as [acc ->].
  cbn [bind]. now apply loop_malformed.
Qed.

(** C4, as the code has it. A line that is not blank and whose stripped text
    does not split on the tab into two fields makes [to_dict] raise, so that
    no mapping is returned; when every line before it loads, the exception
    is the ValueError whose message gives the 1-based number of that line
    and the file name. *)
Theorem to_dict_malformed_line {V : Type} (filename : string)
    (value_type : string -> result V) (text : string)
    (pre : list string) (line : string) (post : list string) :
  readlines text = pre ++ line :: post ->
  is_malformed line = true ->
  (exists e, to_dict filename value_type text = Raise e)
  /\ (forallb (loads value_type) pre = true ->
      to_dict filename value_type text
      = Raise (ValueError (columns_message filename (S (length pre))))).
Proof.
  intros Hlines Hbad. split.
  - unfold to_dict. rewrite Hlines.
    apply loop_raises. now apply malformed_not_loads.
  - now apply (to_dict_columns_error _ _ _ _ _ _ Hlines Hbad).
Qed.

Lemma to_dict_malformed_line_witness :
  to_dict "electors.txt" decimal text_bad_columns_then_bad_value
  = Raise (ValueError "unexpected number of columns on line 1 of electors.txt").
Proof.
  refine (proj2 (to_dict_malformed_line "electors.txt" decimal
            text_bad_columns_then_bad_value []
            (join_tab ["A"; "B"; "C"] ++ String LF EmptyString)%string
            [(join_tab ["D"; "foo"] ++ String LF EmptyString)%string] _ _) _);
    reflexivity.
Defined.

(** C4, as stated, fails: the second line of this text has three fields, and
    [to_dict] raises the conversion's exception for the first line, not the
    ValueError of a malformed line, whatever the line number. *)
Lemma to_dict_malformed_line_shadowed :
  is_malformed (nth 1 (readlines text_bad_value_then_bad_columns) EmptyString)
  = true
  /\ to_dict "electors.txt" decimal text_bad_value_then_bad_columns
     = Raise (ValueError "not a decimal numeral: x")
  /\ forall n,
       to_dict "electors.txt" decimal text_bad_value_then_bad_columns
       <> Raise (ValueError (columns_message "electors.txt" n)).
Proof.
  split; [reflexivity|]. split; [reflexivity|].
  intros n H. vm_compute in H. discriminate.
Qed.

(** C5, as the code has it. A well-formed line on whose second field the
    conversion raises makes [to_dict] raise, so that no mapping is returned;
    when every line before it loads, the exception is the one the conversion
    raised. *)
Theorem to_dict_conversion_error {V : Type} (filename : string)
    (value_type : string -> result V) (text : string)
    (pre : list string) (line : string) (post : list string)
    (k v : string) (e : exception) :
  readlines text = pre ++ line :: post ->
  fields line = Some (k, v) ->
  value_type v = Raise e ->
  (exists e', to_dict filename value_type text = Raise e')
  /\ (forallb (loads value_type) pre = true ->
      to_dict filename value_type text = Raise e).
Proof.
  intros Hlines Hkv He. unfold to_dict. rewrite Hlines. split.
  - apply loop_raises. unfold loads, is_blank.
    destruct (fields_inv _ _ _ Hkv) as [-> _]. now rewrite Hkv, He.
  - intros Hpre. rewrite loop_app.
    destruct (loop_loads filename value_type pre Hpre 1 []) as [acc ->].
    cbn [bind]. rewrite (loop_fields _ _ _ _ _ _ _ _ Hkv). now rewrite He.
Qed.

Lemma to_dict_conversion_error_witness :
  to_dict "electors.txt" decimal text_bad_value_then_bad_columns
  = Raise (ValueError "not a decimal numeral: x").
Proof.
  refine (proj2 (to_dict_conversion_error "electors.txt" decimal
            text_bad_value_then_bad_columns []
            (join_tab ["A"; "x"] ++ String LF EmptyString)%string
            [(join_tab ["B"; "C"; "D"] ++ String LF EmptyString)%string]
            "A" "x" (ValueError "not a decimal numeral: x") _ _ _) _);
    reflexivity.
Defined.

(** C5, as stated, fails: the second line of this text is well formed and
    the conversion raises on its second field, and [to_dict] raises the
    ValueError of the malformed first line, not the conversion's. *)
Lemma to_dict_conversion_error_shadowed :
  fields (nth 1 (readlines text_bad_columns_then_bad_value) EmptyString)
  = Some ("D", "foo")
  /\ decimal "foo" = Raise (ValueError "not a decimal numeral: foo")
  /\ to_dict "electors.txt" decimal text_bad_columns_then_bad_value
     = Raise (ValueError (columns_message "electors.txt" 1))
  /\ to_dict "electors.txt" decimal text_bad_columns_then_bad_value
     <> Raise (ValueError "not a decimal numeral: foo").
Proof.
  repeat split; try reflexivity. vm_compute. discriminate.
Qed.

(** C6. When [to_dict] returns a mapping, a key is bound to the converted
    second field of the last line that has it as its first field; the keys
    of the mapping are distinct. *)
Theorem to_dict_last_write_wins {V : Type} (filename : string)
    (value_type : string -> result V) (text : string)
    (pre : list string) (line : string) (post : list string)
    (k v : string) (d : dict V) :
  to_dict filename value_type text = Ok d ->
  readlines text = pre ++ line :: post ->
  fields line = Some (k, v) ->
  forallb (fun later => negb (has_key_of k later)) post = true ->
  wf_dict d
  /\ exists x, value_type v = Ok x /\ get d k = Some x /\ getitem d k = Ok x.
Proof.
  intros Hd Hlines Hkv Hpost. split.
  - unfold to_dict in Hd.
    refine (loop_invariant filename value_type wf_dict _ _ _ _ _ _ Hd).
    + intros. now apply wf_dict_setitem.
    + constructor.
  - unfold to_dict in Hd. rewrite Hlines, loop_app in Hd.
    destruct (to_dict_loop filename value_type 1 pre []) as [acc|];
      cbn [bind] in Hd; [|discriminate].
    rewrite (loop_fields _ _ _ _ _ _ _ _ Hkv) in Hd.
    destruct (value_type v) as [x|]; cbn [bind] in Hd; [|discriminate].
    exists x. split; [reflexivity|].
    assert (Hg : get d k = Some x).
    { rewrite (loop_keeps _ _ _ _ Hpost _ _ _ Hd). apply get_setitem_same. }
    split; [exact Hg|]. unfold getitem. now rewrite Hg.
Qed.

Lemma to_dict_last_write_wins_witness :
  to_dict "electors.txt" decimal text_duplicate_key
  = Ok [("A", 7%Z); ("B", 5%Z)]
  /\ wf_dict [("A", 7%Z); ("B", 5%Z)]
  /\ exists x, decimal "7" = Ok x
               /\ get [("A", 7%Z); ("B", 5%Z)] "A" = Some x
               /\ getitem [("A", 7%Z); ("B", 5%Z)] "A" = Ok x.
Proof.
  split; [reflexivity|].
  refine (to_dict_last_write_wins "electors.txt" decimal text_duplicate_key
            [(join_tab ["A"; "3"] ++ String LF EmptyString)%string;
             (join_tab ["B"; "5"] ++ String LF EmptyString)%string]
            (join_tab ["A"; "7"] ++ String LF EmptyString)%string []
            "A" "7" [("A", 7%Z); ("B", 5%Z)] _ _ _ _);
    reflexivity.
Defined.

(** ** Reading back what was written *)

Lemma translate_newlines_cons (c : ascii) (s : string) :
  translate_newlines (String c s)
  = if Ascii.eqb c CR then
      match s with
      | String c' s'' =>
          if Ascii.eqb c' LF then String LF (translate_newlines s'')
          else String LF (translate_newlines s)
      | EmptyString => String LF EmptyString
      end
    else String c (translate_newlines s).
Proof. reflexivity. Qed.

Lemma translate_newlines_no_CR (s : string) :
  has_char CR (translate_newlines s) = false.
Proof.
  enough (H : has_char CR (translate_newlines s) = false
              /\ forall c, has_char CR (translate_newlines (String c s)) = false)
    by apply H.
  induction s as [|a s [IH1 IH2]].
  - split; [reflexivity|]. intros c. rewrite translate_newlines_cons.
    destruct (Ascii.eqb c CR) eqn:Hc; [reflexivity|].
    cbn [translate_newlines has_char]. now rewrite Hc.
  - split; [apply IH2|]. intros c. rewrite translate_newlines_cons.
    destruct (Ascii.eqb c CR) eqn:Hc.
    + destruct (Ascii.eqb a LF); cbn [has_char];
        [rewrite IH1 | rewrite IH2]; reflexivity.
    + cbn [has_char]. now rewrite Hc, IH2.
Qed.

Lemma translate_newlines_id (s : string) :
  has_char CR s = false -> translate_newlines s = s.
Proof.
  induction s as [|c s IH]; [reflexivity|].
  cbn [has_char]. intros H. apply orb_false_elim in H as [Hc Hs].
  rewrite translate_newlines_cons, Hc. now rewrite IH.
Qed.

Lemma iter_lines_file_lines (t : string) :
  has_char CR t = false -> Forall file_line (iter_lines t).
Proof.
  induction t as [|c t IH]; simpl; [constructor|].
  intros H. apply orb_false_elim in H as [Hc Ht]. specialize (IH Ht).
  destruct (Ascii.eqb c LF) eqn:Hl.
  - constructor; [|exact IH].
    exists EmptyString. repeat split. right.
    apply Ascii.eqb_eq in Hl. now subst c.
  - destruct (iter_lines t) as [|line rest].
    + constructor; [|constructor].
      exists (String c EmptyString). simpl. rewrite Hc, Hl. auto.
    + inversion IH as [|? ? (body & HL & HC & Hline) Hrest]; subst.
      constructor; [|exact Hrest].
      exists (String c body). simpl. rewrite Hc, Hl, HL, HC.
      repeat split. destruct Hline as [-> | ->]; auto.
Qed.

Lemma readlines_file_lines (text : string) :
  Forall file_line (readlines text).
Proof. apply iter_lines_file_lines, translate_newlines_no_CR. Qed.

Lemma strip_file_line (line : string) (c : ascii) :
  file_line line -> c = LF \/ c = CR -> has_char c (strip line) = false.
Proof.
  intros (body & HL & HC & Hline) Hc.
  assert (Hs : strip line = strip body).
  { destruct Hline as [-> | ->]; [reflexivity|].
    now apply strip_app_space. }
  rewrite Hs. apply has_char_strip. now destruct Hc as [-> | ->].
Qed.

Lemma fields_good (line k v : string) :
  file_line line -> fields line = Some (k, v) -> good_entry (k, v).
Proof.
  intros Hline Hkv. apply fields_inv in Hkv as [Hne Hsplit].
  assert (Hs : join_fields (k, v) = strip line).
  { unfold join_fields. simpl. symmetry. now apply split_two. }
  unfold good_entry. rewrite Hs. simpl fst. simpl snd.
  repeat split; auto using strip_idem, strip_file_line.
Qed.

Lemma fields_item_line (entry : string * string) :
  good_entry entry -> fields (item_line entry) = Some entry.
Proof.
  intros (Hstrip & Hne & Hsplit & _).
  assert (Hs : strip (item_line entry) = join_fields entry).
  { unfold item_line. now rewrite strip_app_space. }
  unfold fields, is_blank. rewrite Hs, Hne, Hsplit. now destruct entry.
Qed.

Lemma good_entries_setitem (acc : dict string) (k v : string) :
  Forall good_entry acc -> good_entry (k, v) ->
  Forall good_entry (setitem acc k v).
Proof.
  intros Hacc Hkv. induction acc as [|[k' v'] acc IH]; simpl.
  - now constructor.
  - inversion Hacc as [|? ? Hhd Htl]; subst.
    destruct (String.eqb k' k) eqn:E.
    + apply String.eqb_eq in E as ->. now constructor.
    + constructor; auto.
Qed.

(** What [to_dict] returns with [str]: distinct keys, and items that each
    read back from their line. *)
Lemma to_dict_str_entries (filename text : string) (d : dict string) :
  to_dict filename str text = Ok d -> wf_dict d /\ Forall good_entry d.
Proof.
  unfold to_dict. intros Hd. split.
  - refine (loop_invariant filename str wf_dict _ _ _ _ _ _ Hd).
    + intros. now apply wf_dict_setitem.
    + constructor.
  - refine (loop_invariant filename str (Forall good_entry) _ _ _ _ _ _ Hd).
    + intros acc line k v x Hin Hacc Hkv Hx. injection Hx as <-.
      apply good_entries_setitem; [exact Hacc|].
      eapply fields_good; [|exact Hkv].
      pose proof (readlines_file_lines text) as Hall.
      rewrite Forall_forall in Hall. now apply Hall.
    + constructor.
Qed.

Lemma iter_lines_line (body rest : string) :
  has_char LF body = false ->
  iter_lines (body ++ String LF rest)
  = (body ++ String LF EmptyString)%string :: iter_lines rest.
Proof.
  induction body as [|c body IH]; simpl; intros H.
  - reflexivity.
  - apply orb_false_elim in H as [Hc Hb]. now rewrite Hc, (IH Hb).
Qed.

Lemma serialize_cons (entry : string * string) (d : dict string) :
  serialize (entry :: d)
  = (join_fields entry ++ String LF (serialize d))%string.
Proof. simpl. unfold item_line. now rewrite append_assoc. Qed.

Lemma serialize_no_CR (d : dict string) :
  Forall good_entry d -> has_char CR (serialize d) = false.
Proof.
  induction 1 as [|entry d (_ & _ & _ & _ & HC) _ IH]; [reflexivity|].
  rewrite serialize_cons, has_char_app, HC. cbn [has_char orb Ascii.eqb].
  exact IH.
Qed.

Lemma readlines_serialize (d : dict string) :
  Forall good_entry d -> readlines (serialize d) = map item_line d.
Proof.
  intros Hd. unfold readlines.
  rewrite (translate_newlines_id _ (serialize_no_CR _ Hd)).
  induction Hd as [|entry d (_ & _ & _ & HL & _) _ IH]; [reflexivity|].
  rewrite serialize_cons, (iter_lines_line _ _ HL), IH. reflexivity.
Qed.

Lemma fields_join_fields (entry : string * string) :
  good_entry entry -> fields (join_fields entry) = Some entry.
Proof.
  intros (Hstrip & Hne & Hsplit & _).
  unfold fields, is_blank. rewrite Hstrip, Hne, Hsplit. now destruct entry.
Qed.

Lemma iter_lines_last (body : string) :
  has_char LF body = false -> is_empty body = false ->
  iter_lines body = [body].
Proof.
  induction body as [|c body IH]; simpl; intros H Hne; [discriminate|].
  apply orb_false_elim in H as [Hc Hb]. rewrite Hc.
  destruct body as [|c' body]; [reflexivity|].
  now rewrite (IH Hb eq_refl).
Qed.

Lemma serialize_join_no_CR (d : dict string) :
  Forall good_entry d -> has_char CR (serialize_join d) = false.
Proof.
  induction 1 as [|entry d (_ & _ & _ & _ & HC) Hd IH]; [reflexivity|].
  destruct d as [|entry' d]; [exact HC|].
  change (has_char CR (join_fields entry
                       ++ String LF (serialize_join (entry' :: d))) = false).
  rewrite has_char_app, HC. cbn [has_char orb Ascii.eqb]. exact IH.
Qed.

(** The lines of either text carry the items, one each and in order. *)
Lemma readlines_serialize_join (d : dict string) :
  Forall good_entry d ->
  Forall2 (fun line entry => fields line = Some entry)
          (readlines (serialize_join d)) d.
Proof.
  intros Hd. unfold readlines.
  rewrite (translate_newlines_id _ (serialize_join_no_CR _ Hd)).
  induction Hd as [|entry d Hentry Hd IH]; [constructor|].
  pose proof Hentry as (_ & Hne & _ & HL & _).
  destruct d as [|entry' d].
  - cbn [serialize_join]. rewrite (iter_lines_last _ HL Hne).
    constructor; [now apply fields_join_fields | constructor].
  - change (serialize_join (entry :: entry' :: d))
      with (join_fields entry ++ String LF (serialize_join (entry' :: d)))%string.
    rewrite (iter_lines_line _ _ HL).
    constructor; [now apply fields_item_line | exact IH].
Qed.

Lemma item_lines_fields (d : dict string) :
  Forall good_entry d ->
  Forall2 (fun line entry => fields line = Some entry) (map item_line d) d.
Proof.
  induction 1; constructor; auto using fields_item_line.
Qed.

(** Loading lines that carry items with distinct, new keys appends the
    items. *)
Lemma loop_item_lines (filename : string) (lines : list string)
    (items : dict string) :
  Forall2 (fun line entry => fields line = Some entry) lines items ->
  forall n acc,
    NoDup (keys (acc ++ items)) ->
    to_dict_loop filename str n lines acc = Ok (acc ++ items).
Proof.
  induction 1 as [|line [k v] lines items Hkv _ IH]; intros n acc Hnd.
  - simpl. now rewrite app_nil_r.
  - rewrite (loop_fields filename str _ _ _ _ _ _ Hkv).
    unfold str at 1. cbn [bind].
    assert (Hnew : ~ In k (keys acc)).
    { unfold keys in *. rewrite map_app in Hnd. simpl in Hnd.
      apply NoDup_remove_2 in Hnd. intros Hin. apply Hnd.
      apply in_or_app. now left. }
    rewrite (setitem_new _ _ _ Hnew), IH.
    + now rewrite <- app_assoc.
    + now rewrite <- app_assoc.
Qed.

(** C8. When [to_dict] with [str] returns a mapping for a text, the items of
    the mapping written one per line, key and value joined by a tab, load
    again to the same mapping, whether the last line is ended by LF or
    not. *)
Theorem to_dict_round_trip (filename filename' text : string)
    (d : dict string) :
  to_dict filename str text = Ok d ->
  to_dict filename' str (serialize d) = Ok d
  /\ to_dict filename' str (serialize_join d) = Ok d.
Proof.
  intros Hd. destruct (to_dict_str_entries _ _ _ Hd) as [Hwf Hgood].
  unfold to_dict. split.
  - rewrite (readlines_serialize _ Hgood).
    now rewrite (loop_item_lines filename' _ d (item_lines_fields _ Hgood) 1 []).
  - now rewrite (loop_item_lines filename' _ d
                   (readlines_serialize_join _ Hgood) 1 []).
Qed.

Lemma to_dict_round_trip_witness :
  to_dict "outcomes.txt" str (tsv [["A"; "R"]; ["B"; "D"]; ["A"; "D"]])
  = Ok [("A", "D"); ("B", "D")]
  /\ to_dict "copy.txt" str (serialize [("A", "D"); ("B", "D")])
     = Ok [("A", "D"); ("B", "D")]
  /\ to_dict "copy.txt" str (serialize_join [("A", "D"); ("B", "D")])
     = Ok [("A", "D"); ("B", "D")].
Proof.
  split; [reflexivity|].
  apply (to_dict_round_trip "outcomes.txt" "copy.txt"
           (tsv [["A"; "R"]; ["B"; "D"]; ["A"; "D"]])).
  reflexivity.
Defined.

(** The stripped text is what is split: a line with a tab after its second
    field loads, and a line with nothing after its tab does not. *)
Example to_dict_strips_before_split :
  to_dict "outcomes.txt" str (tsv [["A"; "R"; EmptyString]])
  = Ok [("A", "R")]
  /\ to_dict "outcomes.txt" str (tsv [["A"; EmptyString]])
     = Raise (ValueError (columns_message "outcomes.txt" 1)).
Proof. split; reflexivity. Qed.

(** With [str] no conversion raises: the first malformed line is the one
    reported. *)
Lemma to_dict_str_first_malformed (filename text : string)
    (pre : list string) (line : string) (post : list string) :
  readlines text = pre ++ line :: post ->
  forallb (fun earlier => negb (is_malformed earlier)) pre = true ->
  is_malformed line = true ->
  to_dict filename str text
  = Raise (ValueError (columns_message filename (S (length pre)))).
Proof.
  intros Hlines Hpre Hbad.
  apply (to_dict_columns_error filename str text pre line post Hlines Hbad).
  rewrite forallb_forall in *. intros l Hl. specialize (Hpre l Hl).
  unfold is_malformed, loads, fields in *.
  destruct (is_blank l); [reflexivity|].
  destruct (split tab (strip l)) as [|a [|b [|c r]]];
    try reflexivity; discriminate.
Qed.

(** The two scenarios of the specification. *)
Example get_winner_scenario_tie :
  get_winner [("A", 3%Z); ("B", 5%Z); ("C", 2%Z)]
             [("A", "R"); ("B", "D"); ("C", "R")] = Ok ("Tie", 5%Z).
Proof. reflexivity. Qed.

Example get_winner_scenario_D :
  get_winner [("A", 3%Z); ("B", 5%Z); ("C", 2%Z)]
             [("A", "R"); ("B", "D"); ("C", "D")] = Ok ("D", 7%Z).
Proof. reflexivity. Qed.

(** * Further properties of [get_winner] *)

Lemma forallb_tallies (e : dict Z) (o : dict string) :
  forallb (tallies e) o = all_valid o && all_known e o.
Proof.
  unfold all_valid, all_known, items, tallies.
  induction o as [|entry o IH]; simpl; [reflexivity|].
  rewrite IH.
  destruct (valid_outcome (snd entry)), (has_key e (fst entry));
    simpl; try reflexivity.
  now rewrite andb_false_r.
Qed.

Lemma tally_entry_tallies (e : dict Z) (totals : Z * Z)
    (entry : string * string) :
  is_ok (tally_entry e totals entry) = tallies e entry.
Proof.
  destruct totals as [r d], entry as [k v]. unfold tallies. simpl fst. simpl snd.
  destruct (valid_outcome v) eqn:Hv.
  - destruct (has_key e k) eqn:Hk.
    + unfold tally_entry. rewrite (getitem_known _ _ Hk).
      apply valid_outcome_cases in Hv as [-> | ->]; reflexivity.
    + unfold tally_entry. rewrite (getitem_unknown _ _ Hk).
      apply valid_outcome_cases in Hv as [-> | ->]; reflexivity.
  - now rewrite tally_entry_invalid.
Qed.

Lemma tally_loop_ok (e : dict Z) (o : list (string * string)) :
  forall totals, is_ok (tally_loop e o totals) = forallb (tallies e) o.
Proof.
  induction o as [|entry o IH]; intros totals; cbn [tally_loop forallb].
  - reflexivity.
  - rewrite <- (tally_entry_tallies e totals entry).
    destruct (tally_entry e totals entry); cbn [bind is_ok andb]; auto.
Qed.

Lemma tally_loop_app (e : dict Z) (o1 o2 : list (string * string)) :
  forall totals,
    tally_loop e (o1 ++ o2) totals
    = (totals' <- tally_loop e o1 totals ;; tally_loop e o2 totals').
Proof.
  induction o1 as [|entry o1 IH]; intros totals.
  - reflexivity.
  - change ((entry :: o1) ++ o2) with (entry :: (o1 ++ o2)).
    cbn [tally_loop].
    destruct (tally_entry e totals entry); cbn [bind]; auto.
Qed.

(** What a call that returns tells about its arguments. *)
Lemma get_winner_ok_inv (e : dict Z) (o : dict string) (r : string * Z) :
  get_winner e o = Ok r ->
  all_valid o = true /\ all_known e o = true
  /\ r = decide_winner (party_total e o "R", party_total e o "D").
Proof.
  intros H.
  assert (Hok : forallb (tallies e) o = true).
  { rewrite <- (tally_loop_ok e o (0%Z, 0%Z)).
    unfold get_winner, items in H.
    now destruct (tally_loop e o (0%Z, 0%Z)). }
  rewrite forallb_tallies in Hok. apply andb_prop in Hok as [Hv Hk].
  repeat split; auto.
  unfold get_winner in H. rewrite (tally_loop_totals _ _ Hv Hk) in H.
  cbn [bind] in H. simpl Z.add in H. congruence.
Qed.

Lemma get_winner_ok_intro (e : dict Z) (o : dict string) :
  all_valid o = true -> all_known e o = true ->
  get_winner e o
  = Ok (decide_winner (party_total e o "R", party_total e o "D")).
Proof.
  intros Hv Hk. unfold get_winner.
  now rewrite (tally_loop_totals _ _ Hv Hk).
Qed.

Lemma party_total_cons (e : dict Z) (k v : string) (o : dict string)
    (party : string) :
  party_total e ((k, v) :: o) party
  = ((if String.eqb v party then elector_count e k else 0)
     + party_total e o party)%Z.
Proof.
  unfold party_total, regions_of, items. simpl.
  destruct (String.eqb v party); reflexivity.
Qed.

Lemma party_total_perm (e : dict Z) (o o' : dict string) (party : string) :
  Permutation o o' -> party_total e o party = party_total e o' party.
Proof.
  induction 1 as [|[k v] o o' _ IH|[k v] [k' v'] o|o1 o2 o3 _ IH1 _ IH2].
  - reflexivity.
  - now rewrite !party_total_cons, IH.
  - rewrite !party_total_cons. lia.
  - congruence.
Qed.

Lemma forallb_perm {A : Type} (f : A -> bool) (l l' : list A) :
  Permutation l l' -> forallb f l = true -> forallb f l' = true.
Proof.
  intros Hp H. rewrite forallb_forall in *. intros x Hx.
  apply H. eapply Permutation_in; [|exact Hx]. now apply Permutation_sym.
Qed.

Lemma elector_count_nonneg (e : dict Z) (k : string) :
  counts_nonneg e = true -> (0 <= elector_count e k)%Z.
Proof.
  unfold counts_nonneg, items, elector_count.
  induction e as [|[k' n] e IH]; simpl; intros H; [lia|].
  apply andb_prop in H as [Hn He].
  destruct (String.eqb k' k); [lia | auto].
Qed.

Lemma party_total_nonneg (e : dict Z) (o : dict string) (party : string) :
  counts_nonneg e = true -> (0 <= party_total e o party)%Z.
Proof.
  intros He. induction o as [|[k v] o IH]; [unfold party_total; simpl; lia|].
  rewrite party_total_cons. pose proof (elector_count_nonneg e k He).
  destruct (String.eqb v party); lia.
Qed.

Lemma decide_winner_cases (r d : Z) :
  (decide_winner (r, d) = ("R", r) /\ (d < r)%Z)
  \/ (decide_winner (r, d) = ("D", d) /\ (r < d)%Z)
  \/ (decide_winner (r, d) = ("Tie", r) /\ r = d).
Proof.
  unfold decide_winner.
  destruct (Z.gtb_spec r d); [left; split; [reflexivity | lia]|].
  destruct (Z.gtb_spec d r); [right; left; split; [reflexivity | lia]|].
  right; right. split; [reflexivity | lia].
Qed.

(** X1. [get_winner] returns a result exactly when every outcome value is
    "R" or "D" and every region of the outcome mapping has an elector count;
    in every other case it raises. *)
Theorem get_winner_ok_iff (elector_dict : dict Z) (outcome_dict : dict string) :
  is_ok (get_winner elector_dict outcome_dict)
  = all_valid outcome_dict && all_known elector_dict outcome_dict.
Proof.
  rewrite <- forallb_tallies,
    <- (tally_loop_ok elector_dict outcome_dict (0%Z, 0%Z)).
  unfold get_winner, items.
  now destruct (tally_loop elector_dict outcome_dict (0%Z, 0%Z)).
Qed.

(** X2. The total [get_winner] reports is the larger of the two party
    totals, hence at least half of the votes tallied; the label is "R" or
    "D" only for a strictly larger total and "Tie" only for equal totals;
    with elector counts that are all at least 0 the reported total is at
    least 0. *)
Theorem get_winner_reports_maximum (elector_dict : dict Z)
    (outcome_dict : dict string) (winner : string) (votes : Z) :
  get_winner elector_dict outcome_dict = Ok (winner, votes) ->
  let total_R := party_total elector_dict outcome_dict "R" in
  let total_D := party_total elector_dict outcome_dict "D" in
  votes = Z.max total_R total_D
  /\ (total_R + total_D <= 2 * votes)%Z
  /\ ((winner = "R" /\ (total_D < total_R)%Z)
      \/ (winner = "D" /\ (total_R < total_D)%Z)
      \/ (winner = "Tie" /\ total_R = total_D))
  /\ (counts_nonneg elector_dict = true -> (0 <= votes)%Z).
Proof.
  intros H total_R total_D.
  apply get_winner_ok_inv in H as (_ & _ & H). fold total_R total_D in H.
  pose proof (party_total_nonneg elector_dict outcome_dict "R") as HR.
  pose proof (party_total_nonneg elector_dict outcome_dict "D") as HD.
  fold total_R in HR. fold total_D in HD.
  destruct (decide_winner_cases total_R total_D) as [[E L] | [[E L] | [E L]]];
    rewrite E in H; injection H as -> ->;
    (split; [lia|]; split; [lia|]; split; [|intros Hn; specialize (HR Hn);
       specialize (HD Hn); lia]); auto.
Qed.

Lemma get_winner_reports_maximum_witness :
  get_winner [("A", 3%Z); ("B", 5%Z); ("C", 2%Z)]
             [("A", "R"); ("B", "D"); ("C", "D")] = Ok ("D", 7%Z)
  /\ 7%Z = Z.max (party_total [("A", 3%Z); ("B", 5%Z); ("C", 2%Z)]
                               [("A", "R"); ("B", "D"); ("C", "D")] "R")
                  (party_total [("A", 3%Z); ("B", 5%Z); ("C", 2%Z)]
                               [("A", "R"); ("B", "D"); ("C", "D")] "D").
Proof.
  split; [reflexivity|].
  exact (proj1 (get_winner_reports_maximum
                  [("A", 3%Z); ("B", 5%Z); ("C", 2%Z)]
                  [("A", "R"); ("B", "D"); ("C", "D")] "D" 7%Z eq_refl)).
Defined.

Lemma tally_loop_ext (e e' : dict Z) (o : list (string * string)) :
  (forall k, In k (map fst o) -> get e k = get e' k) ->
  forall totals, tally_loop e o totals = tally_loop e' o totals.
Proof.
  induction o as [|[k v] o IH]; intros H totals; [reflexivity|].
  cbn [tally_loop].
  assert (Hk : tally_entry e totals (k, v) = tally_entry e' totals (k, v)).
  { destruct totals as [r d]. unfold tally_entry, getitem.
    now rewrite (H k (or_introl eq_refl)). }
  rewrite Hk. destruct (tally_entry e' totals (k, v)); cbn [bind]; auto.
  apply IH. intros k' Hk'. apply H. now right.
Qed.

(** X3. [get_winner] reads the elector mapping at the regions of the outcome
    mapping only: two elector mappings that agree on those regions give the
    same result, so the entries of regions without an outcome play no
    part. *)
Theorem get_winner_unused_electors (elector_dict elector_dict' : dict Z)
    (outcome_dict : dict string) :
  (forall k, In k (keys outcome_dict) ->
             get elector_dict k = get elector_dict' k) ->
  get_winner elector_dict outcome_dict = get_winner elector_dict' outcome_dict.
Proof.
  intros H. unfold get_winner, items.
  now rewrite (tally_loop_ext elector_dict elector_dict' outcome_dict H).
Qed.

Lemma get_winner_unused_electors_witness :
  get_winner [("A", 3%Z); ("B", 5%Z)] [("A", "R")]
  = get_winner [("A", 3%Z)] [("A", "R")].
Proof.
  apply (get_winner_unused_electors [("A", 3%Z); ("B", 5%Z)] [("A", 3%Z)]
           [("A", "R")]).
  intros k [<- | []]. reflexivity.
Defined.

(** X4. A result of [get_winner] does not depend on the order of the items
    of the outcome mapping: when it returns a result, it returns the same
    one for the same items in any other order. *)
Theorem get_winner_order_independent (elector_dict : dict Z)
    (outcome_dict outcome_dict' : dict string) (r : string * Z) :
  Permutation outcome_dict outcome_dict' ->
  get_winner elector_dict outcome_dict = Ok r ->
  get_winner elector_dict outcome_dict' = Ok r.
Proof.
  intros Hp H. apply get_winner_ok_inv in H as (Hv & Hk & ->).
  rewrite (get_winner_ok_intro elector_dict outcome_dict').
  - now rewrite !(party_total_perm _ _ _ _ Hp).
  - revert Hv. unfold all_valid, items. now apply forallb_perm.
  - revert Hk. unfold all_known, items. now apply forallb_perm.
Qed.

Lemma get_winner_order_independent_witness :
  get_winner [("A", 3%Z); ("B", 5%Z)] [("B", "D"); ("A", "R")]
  = Ok ("D", 5%Z).
Proof.
  apply (get_winner_order_independent [("A", 3%Z); ("B", 5%Z)]
           [("A", "R"); ("B", "D")] [("B", "D"); ("A", "R")]).
  - apply perm_swap.
  - reflexivity.
Defined.

Lemma swap_party_valid (v : string) :
  valid_outcome (swap_party v) = valid_outcome v.
Proof.
  unfold swap_party.
  destruct (String.eqb v "R") eqn:HR.
  - apply String.eqb_eq in HR. now subst.
  - destruct (String.eqb v "D") eqn:HD.
    + apply String.eqb_eq in HD. now subst.
    + unfold valid_outcome. now rewrite HR, HD.
Qed.

Lemma tally_loop_swap (e : dict Z) (o : dict string) :
  forall r d,
    tally_loop e (swap_outcomes o) (r, d)
    = (totals <- tally_loop e o (d, r) ;; Ok (snd totals, fst totals)).
Proof.
  induction o as [|[k v] o IH]; intros r d; [reflexivity|].
  cbn [swap_outcomes map fst snd tally_loop]. fold (swap_outcomes o).
  destruct (valid_outcome v) eqn:Hv.
  - apply valid_outcome_cases in Hv as [-> | ->];
      unfold tally_entry, swap_party; simpl String.eqb; cbv iota;
      destruct (getitem e k); cbn [bind]; auto.
  - rewrite !tally_entry_invalid; [reflexivity | assumption |].
    now rewrite swap_party_valid.
Qed.

(** X5. [get_winner] treats the two parties alike: with "R" and "D"
    exchanged in the outcome mapping it raises the same exception, or
    returns the result with "R" and "D" exchanged and the same total. *)
Theorem get_winner_swap_parties (elector_dict : dict Z)
    (outcome_dict : dict string) :
  get_winner elector_dict (swap_outcomes outcome_dict)
  = match get_winner elector_dict outcome_dict with
    | Ok (winner, votes) => Ok (swap_party winner, votes)
    | Raise e => Raise e
    end.
Proof.
  unfold get_winner, items. rewrite tally_loop_swap.
  destruct (tally_loop elector_dict outcome_dict (0%Z, 0%Z)) as [[r d]|ex];
    cbn [bind fst snd]; [|reflexivity].
  f_equal.
  destruct (decide_winner_cases r d) as [[E L] | [[E L] | [E L]]];
    destruct (decide_winner_cases d r) as [[E' L'] | [[E' L'] | [E' L']]];
    rewrite E, E'; try lia; try reflexivity.
  now subst.
Qed.

(** What a call that raises tells about its arguments. *)
Lemma get_winner_raise_inv (elector_dict : dict Z) (outcome_dict : dict string)
    (e : exception) :
  get_winner elector_dict outcome_dict = Raise e ->
  (e = ValueError invalid_outcome_message /\ all_valid outcome_dict = false)
  \/ (exists k v,
        e = KeyError k /\ In (k, v) (items outcome_dict)
        /\ valid_outcome v = true /\ get elector_dict k = None).
Proof.
  unfold get_winner, items. generalize (0%Z, 0%Z).
  induction outcome_dict as [|[k v] o IH]; intros totals H;
    cbn [tally_loop] in H.
  - discriminate.
  - destruct (tally_entry elector_dict totals (k, v)) as [t|ex] eqn:Hstep;
      cbn [bind] in H.
    + destruct (IH _ H) as [[-> Hv] | (k' & v' & -> & Hin & Hv' & Hg)].
      * left. split; [reflexivity|]. unfold all_valid, items in *. simpl.
        now rewrite Hv, andb_false_r.
      * right. exists k', v'. repeat split; auto. now right.
    + injection H as ->.
      destruct (valid_outcome v) eqn:Hv.
      * right. exists k, v. destruct totals as [r d].
        unfold tally_entry, getitem in Hstep.
        apply valid_outcome_cases in Hv as Hc.
        destruct Hc as [-> | ->]; simpl in Hstep;
          (destruct (get elector_dict k); cbn [bind] in Hstep;
           [discriminate | injection Hstep as <-]);
          repeat split; auto; now left.
      * rewrite tally_entry_invalid in Hstep by assumption.
        injection Hstep as <-. left. split; [reflexivity|].
        unfold all_valid, items. simpl. now rewrite Hv.
Qed.

(** X6. [get_winner] raises two exceptions only: the ValueError of an
    outcome value that is neither "R" nor "D", and the KeyError of a region
    that has a valid outcome and no elector count. *)
Theorem get_winner_errors (elector_dict : dict Z) (outcome_dict : dict string)
    (e : exception) :
  get_winner elector_dict outcome_dict = Raise e ->
  (e = ValueError invalid_outcome_message /\ all_valid outcome_dict = false)
  \/ (exists k v,
        e = KeyError k /\ In (k, v) (items outcome_dict)
        /\ valid_outcome v = true /\ get elector_dict k = None).
Proof. apply get_winner_raise_inv. Qed.

Lemma get_winner_errors_witness :
  (KeyError "Z" = ValueError invalid_outcome_message
   /\ all_valid [("A", "R"); ("Z", "D")] = false)
  \/ (exists k v,
        KeyError "Z" = KeyError k /\ In (k, v) (items [("A", "R"); ("Z", "D")])
        /\ valid_outcome v = true /\ get [("A", 3%Z)] k = None).
Proof.
  apply (get_winner_errors [("A", 3%Z)] [("A", "R"); ("Z", "D")]).
  reflexivity.
Defined.

(** X7. The first entry of the outcome mapping that has an invalid outcome
    or a region without elector count decides the exception, whatever the
    entries after it: the ValueError when its outcome is invalid, and
    otherwise the KeyError of its region. *)
Theorem get_winner_first_failure (elector_dict : dict Z)
    (pre post : dict string) (k v : string) :
  forallb (tallies elector_dict) pre = true ->
  tallies elector_dict (k, v) = false ->
  get_winner elector_dict (pre ++ (k, v) :: post)
  = Raise (if valid_outcome v then KeyError k
           else ValueError invalid_outcome_message).
Proof.
  intros Hpre Hbad. unfold get_winner, items. rewrite tally_loop_app.
  pose proof (tally_loop_ok elector_dict pre (0%Z, 0%Z)) as Hok.
  rewrite Hpre in Hok.
  destruct (tally_loop elector_dict pre (0%Z, 0%Z)) as [[r d]|];
    [|discriminate].
  cbn [bind tally_loop]. unfold tallies in Hbad. simpl in Hbad.
  destruct (valid_outcome v) eqn:Hv.
  - simpl in Hbad. unfold tally_entry.
    rewrite (getitem_unknown _ _ Hbad).
    apply valid_outcome_cases in Hv as [-> | ->]; reflexivity.
  - now rewrite tally_entry_invalid.
Qed.

Lemma get_winner_first_failure_witness :
  get_winner [("A", 3%Z)] ([("A", "R")] ++ ("Z", "D") :: [("B", "X")])
  = Raise (KeyError "Z").
Proof.
  apply (get_winner_first_failure [("A", 3%Z)] [("A", "R")] [("B", "X")]
           "Z" "D"); reflexivity.
Defined.

(** X8. Recording one more region for the party that leads keeps it
    leading: when [get_winner] returns a party with its total, and a region
    not yet in the outcome mapping with an elector count of at least 0 is
    assigned to that party, [get_winner] returns the same party with the
    total raised by that count. *)
Theorem get_winner_lead_extends (elector_dict : dict Z)
    (outcome_dict : dict string) (winner : string) (votes : Z)
    (k : string) (c : Z) :
  get_winner elector_dict outcome_dict = Ok (winner, votes) ->
  winner <> "Tie" ->
  ~ In k (keys outcome_dict) ->
  get elector_dict k = Some c ->
  (0 <= c)%Z ->
  get_winner elector_dict (setitem outcome_dict k winner)
  = Ok (winner, (votes + c)%Z).
Proof.
  intros H Hw Hnew Hk Hc.
  rewrite (setitem_new _ _ _ Hnew).
  unfold get_winner, items in *. rewrite tally_loop_app.
  destruct (tally_loop elector_dict outcome_dict (0%Z, 0%Z)) as [[r d]|];
    cbn [bind] in *; [|discriminate].
  assert (H' : decide_winner (r, d) = (winner, votes)) by congruence.
  clear H.
  destruct (decide_winner_cases r d) as [[E L] | [[E L] | [E L]]];
    rewrite E in H'; injection H' as <- <-; try contradiction;
    cbn [tally_loop]; unfold tally_entry, getitem; rewrite Hk;
    simpl String.eqb; cbn [bind]; f_equal; unfold decide_winner.
  - destruct (Z.gtb_spec (r + c) d); [reflexivity | lia].
  - destruct (Z.gtb_spec r (d + c)); [lia|].
    destruct (Z.gtb_spec (d + c) r); [reflexivity | lia].
Qed.

Lemma get_winner_lead_extends_witness :
  get_winner [("A", 3%Z); ("B", 5%Z); ("C", 2%Z)]
             (setitem [("A", "R"); ("B", "D")] "C" "D")
  = Ok ("D", (5 + 2)%Z).
Proof.
  apply (get_winner_lead_extends [("A", 3%Z); ("B", 5%Z); ("C", 2%Z)]
           [("A", "R"); ("B", "D")] "D" 5%Z "C" 2%Z).
  - reflexivity.
  - discriminate.
  - simpl. intros [H | [H | []]]; discriminate.
  - reflexivity.
  - lia.
Defined.

(** * Further properties of [to_dict] *)

Section LoaderMore.

Context {V : Type}.
Variable filename : string.
Variable value_type : string -> result V.

Local Notation "'loop'" := (to_dict_loop filename value_type).

Lemma loop_ok (f : list string) :
  forall n acc, is_ok (loop n f acc) = forallb (loads value_type) f.
Proof.
  induction f as [|line f IH]; intros n acc; [reflexivity|].
  cbn [forallb]. unfold loads at 1.
  destruct (line_cases line) as [Hb | [Hm | (k & v & Hkv)]].
  - rewrite (loop_blank _ _ _ _ _ _ Hb), Hb. apply IH.
  - rewrite (loop_malformed _ _ _ _ _ _ Hm).
    pose proof (malformed_not_loads value_type line Hm) as Hl.
    unfold loads in Hl. now rewrite Hl.
  - rewrite (loop_fields _ _ _ _ _ _ _ _ Hkv), Hkv.
    destruct (fields_inv _ _ _ Hkv) as [Hne _].
    unfold is_blank. rewrite Hne.
    destruct (value_type v); cbn [bind is_ok orb andb]; auto.
Qed.

(** Every exception of the loop comes from its first line that does not
    load. *)
Lemma loop_failure (f : list string) (e : exception) :
  forall n acc,
    loop n f acc = Raise e ->
    exists pre line post,
      f = pre ++ line :: post
      /\ forallb (loads value_type) pre = true
      /\ ((is_malformed line = true
           /\ e = ValueError (columns_message filename (n + length pre)))
          \/ (exists k v, fields line = Some (k, v)
                          /\ value_type v = Raise e)).
Proof.
  induction f as [|line f IH]; intros n acc H; [discriminate|].
  assert (Hrest : forall acc', loop (S n) f acc' = Raise e ->
            loads value_type line = true ->
            exists pre line0 post,
              line :: f = pre ++ line0 :: post
              /\ forallb (loads value_type) pre = true
              /\ ((is_malformed line0 = true
                   /\ e = ValueError
                            (columns_message filename (n + length pre)))
                  \/ (exists k v, fields line0 = Some (k, v)
                                  /\ value_type v = Raise e))).
  { intros acc' H' Hl.
    destruct (IH _ _ H') as (pre & line0 & post & -> & Hpre & Hcase).
    exists (line :: pre), line0, post. split; [reflexivity|].
    split; [simpl; now rewrite Hl|].
    simpl length. now rewrite Nat.add_succ_r. }
  destruct (line_cases line) as [Hb | [Hm | (k & v & Hkv)]].
  - rewrite (loop_blank _ _ _ _ _ _ Hb) in H.
    apply (Hrest _ H). unfold loads. now rewrite Hb.
  - rewrite (loop_malformed _ _ _ _ _ _ Hm) in H. injection H as <-.
    exists [], line, f. simpl. rewrite Nat.add_0_r. auto.
  - rewrite (loop_fields _ _ _ _ _ _ _ _ Hkv) in H.
    destruct (value_type v) as [x|ex] eqn:Hx; cbn [bind] in H.
    + apply (Hrest _ H). unfold loads. rewrite Hkv, Hx. apply orb_true_r.
    + injection H as ->. exists [], line, f. simpl. eauto 8.
Qed.

Lemma blank_no_fields (line : string) :
  is_blank line = true -> fields line = None.
Proof. unfold fields. now intros ->. Qed.

Lemma malformed_no_fields (line : string) :
  is_malformed line = true -> fields line = None.
Proof.
  unfold is_malformed, fields. intros H. apply andb_prop in H as [Hb Hn].
  apply negb_true_iff in Hb. rewrite Hb.
  destruct (split tab (strip line)) as [|a [|b [|c l]]];
    try reflexivity; discriminate.
Qed.

End LoaderMore.

Lemma keys_setitem_present {V : Type} (d : dict V) (k : string) (v : V) :
  In k (keys d) -> keys (setitem d k v) = keys d.
Proof.
  unfold keys. induction d as [|[k' v'] d IH]; simpl; [contradiction|].
  intros H. destruct (String.eqb k' k) eqn:E; [reflexivity|].
  simpl. f_equal. apply IH. destruct H as [H | H]; [|exact H].
  subst. now rewrite String.eqb_refl in E.
Qed.

Lemma nodup_drop_repeated (l m : list string) (k : string) :
  In k m ->
  nodup string_dec (l ++ k :: m) = nodup string_dec (l ++ m).
Proof.
  intros Hk. induction l as [|x l IH]; simpl.
  - destruct (in_dec string_dec k m); [reflexivity | contradiction].
  - rewrite IH.
    destruct (in_dec string_dec x (l ++ k :: m)) as [H1 | H1],
             (in_dec string_dec x (l ++ m)) as [H2 | H2];
      try reflexivity; exfalso.
    + apply H2. apply in_app_or in H1 as [H1 | [<- | H1]];
        apply in_or_app; auto.
    + apply H1. apply in_app_or in H2 as [H2 | H2];
        apply in_or_app; [auto | right; now right].
Qed.

Lemma first_occurrences_repeated (a rest : list string) (k : string) :
  In k a ->
  first_occurrences (a ++ k :: rest) = first_occurrences (a ++ rest).
Proof.
  intros Hk. unfold first_occurrences. f_equal.
  rewrite !rev_app_distr. simpl rev. rewrite <- app_assoc. simpl app.
  apply nodup_drop_repeated. now apply in_rev in Hk.
Qed.

Lemma first_occurrences_nodup (l : list string) :
  NoDup l -> first_occurrences l = l.
Proof.
  intros H. unfold first_occurrences.
  rewrite nodup_fixed_point by now apply NoDup_rev.
  apply rev_involutive.
Qed.

Lemma line_keys_length (f : list string) :
  (length (line_keys f) <= length f)%nat.
Proof.
  induction f as [|line f IH]; simpl; [lia|].
  destruct (key_of line); simpl; lia.
Qed.

(** The keys of the dict the loop returns: those it started with, then the
    first fields of the lines, each where it first occurs. *)
Lemma loop_keys {V : Type} (filename : string)
    (value_type : string -> result V) (f : list string) :
  forall n acc d,
    wf_dict acc ->
    to_dict_loop filename value_type n f acc = Ok d ->
    keys d = first_occurrences (keys acc ++ line_keys f).
Proof.
  induction f as [|line f IH]; intros n acc d Hwf Hd.
  - simpl in Hd. injection Hd as <-. simpl. rewrite app_nil_r.
    symmetry. now apply first_occurrences_nodup.
  - destruct (line_cases line) as [Hb | [Hm | (k & v & Hkv)]].
    + rewrite (loop_blank _ _ _ _ _ _ Hb) in Hd.
      simpl. unfold key_of. rewrite (blank_no_fields _ Hb). simpl. eauto.
    + rewrite (loop_malformed _ _ _ _ _ _ Hm) in Hd. discriminate.
    + rewrite (loop_fields _ _ _ _ _ _ _ _ Hkv) in Hd.
      destruct (value_type v) as [x|]; cbn [bind] in Hd; [|discriminate].
      simpl. unfold key_of. rewrite Hkv. simpl.
      rewrite (IH _ _ _ (wf_dict_setitem _ k x Hwf) Hd).
      destruct (in_dec string_dec k (keys acc)) as [Hin | Hnew].
      * rewrite (keys_setitem_present _ _ _ Hin).
        symmetry. now apply first_occurrences_repeated.
      * rewrite (setitem_new _ _ _ Hnew). unfold keys at 1.
        rewrite map_app. simpl. now rewrite <- app_assoc.
Qed.

(** X9. A text whose lines are all blank, the empty text among them, loads
    as the empty mapping. *)
Theorem to_dict_blank_text {V : Type} (filename : string)
    (value_type : string -> result V) (text : string) :
  forallb is_blank (readlines text) = true ->
  to_dict filename value_type text = Ok [].
Proof.
  unfold to_dict. generalize 1%nat.
  induction (readlines text) as [|line f IH]; intros n H; [reflexivity|].
  simpl in H. apply andb_prop in H as [Hb Hf].
  rewrite (loop_blank _ _ _ _ _ _ Hb). now apply IH.
Qed.

Lemma to_dict_blank_text_witness :
  to_dict "electors.txt" decimal (tsv [[]; ["  "]; []]) = Ok [].
Proof.
  apply (to_dict_blank_text "electors.txt" decimal (tsv [[]; ["  "]; []])).
  reflexivity.
Defined.

(** X10. [to_dict] returns a mapping exactly when every line of the text is
    blank, or splits into two fields the second of which the conversion
    accepts; it raises in every other case. *)
Theorem to_dict_ok_iff {V : Type} (filename : string)
    (value_type : string -> result V) (text : string) :
  is_ok (to_dict filename value_type text)
  = forallb (loads value_type) (readlines text).
Proof. unfold to_dict. apply loop_ok. Qed.

(** X11. Every exception of [to_dict] comes from the first line that does
    not load: it is the ValueError with the 1-based number of that line when
    the line is malformed, and otherwise what the conversion raised on the
    second field of that line. *)
Theorem to_dict_failure {V : Type} (filename : string)
    (value_type : string -> result V) (text : string) (e : exception) :
  to_dict filename value_type text = Raise e ->
  exists pre line post,
    readlines text = pre ++ line :: post
    /\ forallb (loads value_type) pre = true
    /\ ((is_malformed line = true
         /\ e = ValueError (columns_message filename (S (length pre))))
        \/ (exists k v, fields line = Some (k, v)
                        /\ value_type v = Raise e)).
Proof.
  unfold to_dict. intros H. now apply loop_failure in H.
Qed.

Lemma to_dict_failure_witness :
  exists pre line post,
    readlines text_bad_value_then_bad_columns = pre ++ line :: post
    /\ forallb (loads decimal) pre = true
    /\ ((is_malformed line = true
         /\ ValueError "not a decimal numeral: x"
            = ValueError (columns_message "electors.txt" (S (length pre))))
        \/ (exists k v, fields line = Some (k, v)
                        /\ decimal v
                           = Raise (ValueError "not a decimal numeral: x"))).
Proof.
  apply (to_dict_failure "electors.txt" decimal
           text_bad_value_then_bad_columns).
  reflexivity.
Defined.

(** X12. With [str], the default conversion, [to_dict] raises nothing but
    the ValueError of a malformed line, and the line it numbers is the first
    malformed line of the text. *)
Theorem to_dict_str_failure (filename text : string) (e : exception) :
  to_dict filename str text = Raise e ->
  exists pre line post,
    readlines text = pre ++ line :: post
    /\ forallb (fun earlier => negb (is_malformed earlier)) pre = true
    /\ is_malformed line = true
    /\ e = ValueError (columns_message filename (S (length pre))).
Proof.
  unfold to_dict. intros H.
  apply loop_failure in H
    as (pre & line & post & Hf & Hpre & [[Hm He] | (k & v & _ & Hx)]).
  - exists pre, line, post. repeat split; auto.
    rewrite forallb_forall in *. intros l Hl. specialize (Hpre l Hl).
    destruct (is_malformed l) eqn:Hml; [|reflexivity].
    now rewrite (malformed_not_loads str l Hml) in Hpre.
  - discriminate.
Qed.

Lemma to_dict_str_failure_witness :
  exists pre line post,
    readlines (sample_fs "bad_columns.txt") = pre ++ line :: post
    /\ forallb (fun earlier => negb (is_malformed earlier)) pre = true
    /\ is_malformed line = true
    /\ ValueError "unexpected number of columns on line 2 of bad_columns.txt"
       = ValueError (columns_message "bad_columns.txt" (S (length pre))).
Proof.
  apply (to_dict_str_failure "bad_columns.txt" (sample_fs "bad_columns.txt")).
  reflexivity.
Defined.

(** X13. The keys of the mapping [to_dict] returns are the first fields of
    the lines that are not blank, each once, in the order in which they
    first occur in the text; this is the order [items()] yields them in. *)
Theorem to_dict_key_order {V : Type} (filename : string)
    (value_type : string -> result V) (text : string) (d : dict V) :
  to_dict filename value_type text = Ok d ->
  keys d = first_occurrences (line_keys (readlines text))
  /\ (forall k, In k (keys d) <-> In k (line_keys (readlines text))).
Proof.
  unfold to_dict. intros H.
  assert (Hk : keys d = first_occurrences (line_keys (readlines text))).
  { apply (loop_keys _ _ _ _ [] _ (NoDup_nil _) H). }
  split; [exact Hk|]. intros k. rewrite Hk. unfold first_occurrences.
  now rewrite <- in_rev, nodup_In, <- in_rev.
Qed.

Lemma to_dict_key_order_witness :
  keys [("A", 7%Z); ("B", 5%Z)]
  = first_occurrences (line_keys (readlines text_duplicate_key)).
Proof.
  exact (proj1 (to_dict_key_order "electors.txt" decimal text_duplicate_key
                  [("A", 7%Z); ("B", 5%Z)] eq_refl)).
Defined.

(** X14. The mapping [to_dict] returns has at most as many items as the
    text has lines that are not blank, and so at most as many as it has
    lines. *)
Theorem to_dict_size {V : Type} (filename : string)
    (value_type : string -> result V) (text : string) (d : dict V) :
  to_dict filename value_type text = Ok d ->
  (length d <= length (line_keys (readlines text)))%nat
  /\ (length (line_keys (readlines text))
      <= length (filter (fun line => negb (is_blank line)) (readlines text)))%nat
  /\ (length d <= length (readlines text))%nat.
Proof.
  unfold to_dict. intros H.
  assert (H1 : (length d <= length (line_keys (readlines text)))%nat).
  { replace (length d) with (length (keys d))
      by (unfold keys; apply length_map).
    rewrite (loop_keys _ _ _ _ [] _ (NoDup_nil _) H). simpl app.
    unfold first_occurrences. rewrite length_rev.
    apply NoDup_incl_length; [apply NoDup_nodup|].
    intros x Hx. now apply nodup_In, in_rev in Hx. }
  split; [exact H1|]. split.
  - clear. induction (readlines text) as [|line f IH]; simpl; [lia|].
    unfold key_of at 1. destruct (is_blank line) eqn:Hb.
    + rewrite (blank_no_fields _ Hb). simpl. exact IH.
    + destruct (fields line); simpl; lia.
  - pose proof (line_keys_length (readlines text)). lia.
Qed.

Lemma to_dict_size_witness :
  (length [("A", 7%Z); ("B", 5%Z)]
   <= length (line_keys (readlines text_duplicate_key)))%nat.
Proof.
  exact (proj1 (to_dict_size "electors.txt" decimal text_duplicate_key
                  [("A", 7%Z); ("B", 5%Z)] eq_refl)).
Defined.

Lemma split_no_sep (sep : ascii) (s : string) :
  Forall (fun field => has_char sep field = false) (split sep s).
Proof.
  induction s as [|c s IH]; simpl.
  - repeat constructor.
  - destruct (Ascii.eqb c sep) eqn:Hc.
    + constructor; [reflexivity | exact IH].
    + destruct (split sep s) as [|f fs].
      * constructor; [simpl; now rewrite Hc | constructor].
      * inversion IH as [|? ? Hf Hfs]; subst.
        constructor; [simpl; now rewrite Hc, Hf | exact Hfs].
Qed.

Lemma rstrip_suffix (a b : string) :
  rstrip (a ++ b) = (a ++ b)%string -> is_empty b = false -> rstrip b = b.
Proof.
  intros H Hb. induction a as [|c a IH]; [exact H|].
  apply IH. simpl in H.
  destruct (rstrip (a ++ b)) as [|x r] eqn:E.
  - destruct (isspace c); [discriminate|].
    injection H as H. destruct a; simpl in H; [|discriminate].
    subst b. discriminate.
  - now injection H.
Qed.

Lemma strip_fixed_parts (s : string) :
  strip s = s -> is_empty s = false ->
  lstrip s = s /\ rstrip s = s.
Proof.
  intros H Hne. destruct s as [|a r]; [discriminate|].
  pose proof (strip_head _ _ _ H) as Ha.
  assert (Hl : lstrip (String a r) = String a r) by (simpl; now rewrite Ha).
  split; [exact Hl|]. unfold strip in H. now rewrite Hl in H.
Qed.

(** The shape of the key of an item that reads back from its line. *)
Lemma good_entry_key (k v : string) :
  good_entry (k, v) ->
  is_empty k = false /\ lstrip k = k
  /\ has_char tab k = false /\ has_char LF k = false
  /\ has_char CR k = false.
Proof.
  unfold good_entry, join_fields. simpl fst. simpl snd.
  intros (Hstrip & Hne & Hsplit & HL & HC).
  rewrite has_char_app in HL, HC.
  apply orb_false_elim in HL as [HL _]. apply orb_false_elim in HC as [HC _].
  pose proof (split_no_sep tab (k ++ String tab v)) as Hsep.
  rewrite Hsplit in Hsep. inversion Hsep as [|? ? Hk _]; subst.
  destruct k as [|a k].
  - simpl in Hstrip. apply strip_head in Hstrip. discriminate.
  - simpl in Hstrip. apply strip_head in Hstrip.
    repeat split; auto. simpl. now rewrite Hstrip.
Qed.

(** The shape of its value. *)
Lemma good_entry_value (k v : string) :
  good_entry (k, v) ->
  is_empty v = false /\ rstrip v = v
  /\ has_char tab v = false /\ has_char LF v = false
  /\ has_char CR v = false.
Proof.
  unfold good_entry, join_fields. simpl fst. simpl snd.
  intros (Hstrip & Hne & Hsplit & HL & HC).
  rewrite has_char_app in HL, HC.
  apply orb_false_elim in HL as [_ HL]. apply orb_false_elim in HC as [_ HC].
  cbn [has_char] in HL, HC.
  apply orb_false_elim in HL as [_ HL]. apply orb_false_elim in HC as [_ HC].
  pose proof (split_no_sep tab (k ++ String tab v)) as Hsep.
  rewrite Hsplit in Hsep.
  inversion Hsep as [|? ? _ Hv']; subst. inversion Hv' as [|? ? Hv _]; subst.
  destruct (strip_fixed_parts _ Hstrip Hne) as [_ Hr].
  assert (Hv0 : is_empty v = false).
  { destruct v; [|reflexivity].
    apply (rstrip_suffix k (String tab EmptyString)) in Hr; [|reflexivity].
    vm_compute in Hr. discriminate. }
  repeat split; auto.
  apply (rstrip_suffix (k ++ String tab EmptyString) v); [|exact Hv0].
  now rewrite append_assoc.
Qed.

(** X15. Every key of a mapping [to_dict] returns is a non-empty string
    without leading white space that holds no tab, no LF and no CR. *)
Theorem to_dict_key_shape {V : Type} (filename : string)
    (value_type : string -> result V) (text : string) (d : dict V)
    (k : string) :
  to_dict filename value_type text = Ok d ->
  In k (keys d) ->
  is_empty k = false /\ lstrip k = k
  /\ has_char tab k = false /\ has_char LF k = false
  /\ has_char CR k = false.
Proof.
  unfold to_dict. intros Hd. revert k.
  refine (loop_invariant filename value_type
            (fun acc => forall k, In k (keys acc) -> _) _ _ _ _ _ _ Hd).
  - intros acc line k0 v x Hin Hacc Hkv _ k Hk.
    apply in_keys_setitem in Hk as [-> | Hk]; [|now apply Hacc].
    apply (good_entry_key k0 v). eapply fields_good; [|exact Hkv].
    pose proof (readlines_file_lines text) as Hall.
    rewrite Forall_forall in Hall. now apply Hall.
  - intros k [].
Qed.

Lemma to_dict_key_shape_witness :
  is_empty "A" = false /\ lstrip "A" = "A"
  /\ has_char tab "A" = false /\ has_char LF "A" = false
  /\ has_char CR "A" = false.
Proof.
  apply (to_dict_key_shape "padded.txt" str (sample_fs "padded.txt")
           [("A", "D"); ("B", "D")] "A").
  - reflexivity.
  - simpl. now left.
Defined.

(** X16. Every value of a mapping [to_dict] returns with [str] is a
    non-empty string without trailing white space that holds no tab, no LF
    and no CR. *)
Theorem to_dict_str_value_shape (filename text : string) (d : dict string)
    (k v : string) :
  to_dict filename str text = Ok d ->
  In (k, v) (items d) ->
  is_empty v = false /\ rstrip v = v
  /\ has_char tab v = false /\ has_char LF v = false
  /\ has_char CR v = false.
Proof.
  intros Hd Hin. destruct (to_dict_str_entries _ _ _ Hd) as [_ Hgood].
  rewrite Forall_forall in Hgood. apply (good_entry_value k v).
  now apply Hgood.
Qed.

Lemma to_dict_str_value_shape_witness :
  is_empty "D" = false /\ rstrip "D" = "D"
  /\ has_char tab "D" = false /\ has_char LF "D" = false
  /\ has_char CR "D" = false.
Proof.
  apply (to_dict_str_value_shape "padded.txt" (sample_fs "padded.txt")
           [("A", "D"); ("B", "D")] "A" "D").
  - reflexivity.
  - simpl. now left.
Defined.

Lemma loop_strip_insensitive {V : Type} (filename : string)
    (value_type : string -> result V) (f f' : list string) :
  Forall2 (fun line line' => strip line = strip line') f f' ->
  forall n acc,
    to_dict_loop filename value_type n f acc
    = to_dict_loop filename value_type n f' acc.
Proof.
  induction 1 as [|line line' f f' Hs _ IH]; intros n acc; [reflexivity|].
  cbn [to_dict_loop]. cbv zeta. rewrite Hs.
  destruct (is_empty (strip line')); [apply IH|].
  destruct (negb (length (split tab (strip line')) =? 2)%nat);
    [reflexivity|].
  destruct (value_type (nth 1 (split tab (strip line')) EmptyString));
    cbn [bind]; [apply IH | reflexivity].
Qed.

(** X17. White space around a line plays no part: two texts with as many
    lines, whose lines are equal once stripped, load alike, to the same
    mapping or to the same exception. *)
Theorem to_dict_strip_insensitive {V : Type} (filename : string)
    (value_type : string -> result V) (text text' : string) :
  Forall2 (fun line line' => strip line = strip line')
          (readlines text) (readlines text') ->
  to_dict filename value_type text = to_dict filename value_type text'.
Proof. intros H. unfold to_dict. now apply loop_strip_insensitive. Qed.

Lemma to_dict_strip_insensitive_witness :
  to_dict "outcomes.txt" str (tsv [[" A"; "R "]; []; ["B"; "D"; "X"]])
  = to_dict "outcomes.txt" str (tsv [["A"; "R"]; ["  "]; ["B"; "D"; "X "]]).
Proof.
  apply (to_dict_strip_insensitive "outcomes.txt" str
           (tsv [[" A"; "R "]; []; ["B"; "D"; "X"]])
           (tsv [["A"; "R"]; ["  "]; ["B"; "D"; "X "]])).
  repeat constructor.
Defined.

Lemma loop_without_blank_lines {V : Type} (filename filename' : string)
    (value_type : string -> result V) (f : list string) (d : dict V) :
  forall n n' acc,
    to_dict_loop filename value_type n f acc = Ok d ->
    to_dict_loop filename' value_type n'
      (filter (fun line => negb (is_blank line)) f) acc = Ok d.
Proof.
  induction f as [|line f IH]; intros n n' acc H; [exact H|].
  cbn [filter].
  destruct (line_cases line) as [Hb | [Hm | (k & v & Hkv)]].
  - rewrite (loop_blank _ _ _ _ _ _ Hb) in H. rewrite Hb. simpl negb.
    cbv iota. eauto.
  - rewrite (loop_malformed _ _ _ _ _ _ Hm) in H. discriminate.
  - destruct (fields_inv _ _ _ Hkv) as [Hne _].
    unfold is_blank at 1. rewrite Hne. simpl negb. cbv iota.
    rewrite (loop_fields _ _ _ _ _ _ _ _ Hkv) in H.
    rewrite (loop_fields _ _ _ _ _ _ _ _ Hkv).
    destruct (value_type v); cbn [bind] in *; [eauto | discriminate H].
Qed.

(** X18. Blank lines play no part in the mapping: when [to_dict] returns a
    mapping for a text, it returns the same mapping for the text without
    its blank lines, under any file name. *)
Theorem to_dict_blank_lines_ignored {V : Type} (filename filename' : string)
    (value_type : string -> result V) (text text' : string) (d : dict V) :
  readlines text'
  = filter (fun line => negb (is_blank line)) (readlines text) ->
  to_dict filename value_type text = Ok d ->
  to_dict filename' value_type text' = Ok d.
Proof.
  unfold to_dict. intros -> H.
  now apply (loop_without_blank_lines filename filename') with (n := 1%nat).
Qed.

Lemma to_dict_blank_lines_ignored_witness :
  to_dict "copy.txt" decimal (tsv [["A"; "3"]; ["B"; "5"]])
  = Ok [("A", 3%Z); ("B", 5%Z)].
Proof.
  apply (to_dict_blank_lines_ignored "electors.txt" "copy.txt" decimal
           (tsv [[]; ["A"; "3"]; ["  "]; ["B"; "5"]; []])
           (tsv [["A"; "3"]; ["B"; "5"]])); reflexivity.
Defined.

Lemma append_length (a b : string) :
  String.length (a ++ b) = (String.length a + String.length b)%nat.
Proof. induction a; simpl; congruence. Qed.

Lemma append_cancel_l (a b c : string) :
  (a ++ b = a ++ c)%string -> b = c.
Proof. induction a; simpl; intros H; [exact H | injection H; auto]. Qed.

Lemma append_cancel_r (a b c : string) :
  (a ++ c = b ++ c)%string -> a = b.
Proof.
  revert b. induction a as [|x a IH]; intros [|y b] H.
  - reflexivity.
  - apply (f_equal String.length) in H. simpl in H.
    rewrite append_length in H. lia.
  - apply (f_equal String.length) in H. simpl in H.
    rewrite append_length in H. lia.
  - simpl in H. injection H as -> H. f_equal. now apply IH.
Qed.

Lemma str_of_nat_inj (n m : nat) : str_of_nat n = str_of_nat m -> n = m.
Proof.
  unfold str_of_nat. intros H.
  apply DecimalNat.Unsigned.to_uint_inj.
  apply (f_equal NilEmpty.uint_of_string) in H.
  rewrite !NilEmpty.usu in H. congruence.
Qed.

(** X19. The message of the ValueError [to_dict] raises for a malformed line
    tells the line: for one file name, two line numbers with the same
    message are equal. *)
Theorem columns_message_injective (filename : string) (n m : nat) :
  columns_message filename n = columns_message filename m -> n = m.
Proof.
  unfold columns_message. intros H.
  apply append_cancel_l in H. rewrite <- !append_assoc in H.
  apply append_cancel_r in H. apply append_cancel_r in H.
  now apply str_of_nat_inj.
Qed.

Lemma columns_message_injective_witness :
  (S 11 = 12)%nat.
Proof.
  apply (columns_message_injective "electors.txt" (S 11) 12).
  reflexivity.
Defined.

(** * Properties of [read_data] and of the script *)

Lemma forallb_pointwise {A : Type} (f g : A -> bool) (l : list A) :
  (forall x, f x = g x) -> forallb f l = forallb g l.
Proof.
  intros H. induction l as [|x l IH]; simpl; [reflexivity|].
  now rewrite H, IH.
Qed.

Lemma str_loads (line : string) :
  loads str line = negb (is_malformed line).
Proof.
  unfold loads, is_malformed, fields. destruct (is_blank line); [reflexivity|].
  destruct (split tab (strip line)) as [|a [|b [|c l]]]; reflexivity.
Qed.


Section ScriptFacts.

Variable int : string -> result Z.
Variable fs : string -> string.

(** X20. [read_data] returns the two mappings exactly when every line of the
    elector file is blank or has two fields the second of which [int]
    accepts, and no line of the outcome file is malformed; the outcome
    labels are not looked at. *)
Theorem read_data_ok_iff (elector_file outcome_file : string) :
  is_ok (read_data int fs elector_file outcome_file)
  = forallb (loads int) (readlines (fs elector_file))
    && forallb (fun line => negb (is_malformed line))
               (readlines (fs outcome_file)).
Proof.
  unfold read_data.
  rewrite <- (loop_ok elector_file int (readlines (fs elector_file)) 1 []).
  rewrite <- (forallb_pointwise _ _ _ str_loads).
  rewrite <- (loop_ok outcome_file str (readlines (fs outcome_file)) 1 []).
  unfold to_dict.
  destruct (to_dict_loop elector_file int 1 (readlines (fs elector_file)) []);
    cbn [bind is_ok andb]; [|reflexivity].
  now destruct (to_dict_loop outcome_file str 1
                  (readlines (fs outcome_file)) []).
Qed.



End ScriptFacts.

Lemma read_data_ok_iff_witness :
  is_ok (read_data decimal sample_fs "electors.txt" "bad_label.txt") = true.
Proof.
  rewrite (read_data_ok_iff decimal sample_fs "electors.txt" "bad_label.txt").
  reflexivity.
Defined.


